(** * A shallow embedding of the reverse proxy of [proxy.py]

    The development follows the class [ReverseProxy]: the backend records
    built by [_parse_backends], the round-robin cursor [current_backend],
    the selection policy [select_backend], the header rewriting of
    [process_headers], the forwarding pipeline [handle_request], one pass
    of the probing loop [health_check] and the aggregate endpoint
    [health_handler].

    Conventions of the embedding.
    - A Python dict with a fixed set of keys (a backend) is a record.
    - A reference to a backend dict is its position in [self.backends]:
      the list is built once and never resized or reordered, so a
      position names one object for the whole life of the proxy, and a
      mutation through the reference is an update at that position.
    - Python integers are unbounded: [Z] for counters and status codes,
      [nat] for the cursor, which starts at 0 and is only incremented.
    - The network is an explicit argument: what the outbound call does is
      supplied by the caller of the model, what the code does with it is
      computed. *)

From stdpp Require Import base gmap strings list fin_maps.
From Stdlib Require Import ZArith Lia.
From Stdlib Require Strings.Byte.

Set Warnings "-abstract-large-number".

Open Scope Z_scope.
Open Scope nat_scope.

(** ** Data model *)

(** The dict appended by [_parse_backends]. *)
Record Backend := mkBackend {
  id          : string;
  url         : string;
  host        : option string;
  port        : Z;
  healthy     : bool;
  connections : Z
}.

(** The two attributes of [ReverseProxy] that the handlers read and
    write ([session] is the network, which the model takes as an
    argument). *)
Record ReverseProxy := mkProxy {
  backends        : list Backend;
  current_backend : nat
}.

(** [backend['healthy'] = v] *)
Definition set_healthy (v : bool) (b : Backend) : Backend :=
  mkBackend (id b) (url b) (host b) (port b) v (connections b).

(** [backend['connections'] += d] *)
Definition add_connections (d : Z) (b : Backend) : Backend :=
  mkBackend (id b) (url b) (host b) (port b) (healthy b) (connections b + d)%Z.

(** A mutation of the backend object at position [i]. *)
Definition update_backend (i : nat) (f : Backend → Backend) (p : ReverseProxy)
  : ReverseProxy :=
  mkProxy (alter f i (backends p)) (current_backend p).

(** ** Selection *)

(** [[b for b in self.backends if b['healthy']]]: each selected object
    with its position; [i] is the position of the head of [bs]. *)
Fixpoint available_from (i : nat) (bs : list Backend) : list (nat * Backend) :=
  match bs with
  | [] => []
  | b :: bs' =>
      if healthy b then (i, b) :: available_from (S i) bs'
      else available_from (S i) bs'
  end.

Definition available (p : ReverseProxy) : list (nat * Backend) :=
  available_from 0 (backends p).

(** [select_backend]: the returned reference ([None] for Python's
    [None]) and the proxy afterwards. *)
Definition select_backend (p : ReverseProxy)
  : option (nat * Backend) * ReverseProxy :=
  let available := available p in
  match available with
  | [] => (None, p)
  | _ :: _ =>
      let backend := available !! (current_backend p mod length available) in
      (backend, mkProxy (backends p) (current_backend p + 1))
  end.

(** [n] calls of [select_backend] in a row, with what each returned,
    oldest first. *)
Fixpoint select_many (n : nat) (p : ReverseProxy)
  : list (option (nat * Backend)) * ReverseProxy :=
  match n with
  | 0 => ([], p)
  | S n' =>
      let '(r, p1) := select_backend p in
      let '(rs, p2) := select_many n' p1 in
      (r :: rs, p2)
  end.

(** ** Header rewriting *)

(** The part of the inbound [aiohttp] request that the handlers read.
    [headers] lists the items of the case-insensitive multidict
    [request.headers] in order, each name spelled as the multidict
    stores it. *)
Record Request := mkRequest {
  method        : string;
  path          : string;
  path_qs       : string;
  headers       : list (string * string);
  remote        : option string;
  scheme        : string;
  can_read_body : bool;
  content       : list Byte.byte
}.

Definition lower_ascii (c : Ascii.ascii) : Ascii.ascii :=
  let n := Ascii.nat_of_ascii c in
  if (65 <=? n) && (n <=? 90) then Ascii.ascii_of_nat (n + 32) else c.

(** [str.lower] on ASCII names. *)
Fixpoint lower (s : string) : string :=
  match s with
  | EmptyString => EmptyString
  | String c s' => String (lower_ascii c) (lower s')
  end.

(** [request.headers[k]]: the first value stored under a name equal to
    [k] up to letter case. *)
Fixpoint getone (h : list (string * string)) (k : string) : option string :=
  match h with
  | [] => None
  | (k', v) :: h' =>
      if decide (lower k' = lower k) then Some v else getone h' k
  end.

(** [dict(request.headers)]: the constructor walks [keys()] and stores
    [request.headers[k]] under each [k]; the result is a plain dict,
    whose keys are compared as exact strings. *)
Definition dict_of_headers (h : list (string * string)) : gmap string string :=
  foldl (λ d kv, match getone h kv.1 with
                 | Some v => <[kv.1 := v]> d
                 | None => d
                 end) ∅ h.

Definition hop_by_hop : list string :=
  ["connection"; "keep-alive"; "transfer-encoding"; "upgrade"].

(** [request.remote or '127.0.0.1']: [None] and the empty string are
    both false. *)
Definition remote_or (r : option string) (d : string) : string :=
  match r with
  | None => d
  | Some s => if decide (s = "") then d else s
  end.

Definition process_headers (request : Request) : gmap string string :=
  let headers := dict_of_headers (headers request) in
  let headers := foldl (λ hs header, delete header hs) headers hop_by_hop in
  let client_ip := remote_or (remote request) "127.0.0.1" in
  let headers := <["X-Forwarded-For" := client_ip]> headers in
  let headers := <["X-Forwarded-Proto" := scheme request]> headers in
  let headers := <["X-Real-IP" := client_ip]> headers in
  headers.

(** ** Forwarding *)

(** The exception classes that the handlers tell apart:
    [asyncio.TimeoutError], any other [Exception], and an exception that
    is not an [Exception] (a cancellation), which no [except] clause of
    the program catches. *)
Inductive Exn := TimeoutError | OtherException | BaseException.

(** The arguments of [self.session.request]. *)
Record OutboundCall := mkCall {
  call_method     : string;
  call_url        : string;
  call_headers    : gmap string string;
  call_data       : option (list Byte.byte);
  allow_redirects : bool
}.

(** What a backend sends back: status and headers, the declared
    [Content-Length] when there is one, the body bytes read before the
    stream ended, and how it ended ([None] is end-of-stream, [Some e] is
    [e] raised while reading or writing). *)
Record BackendResponse := mkResponse {
  resp_status    : Z;
  resp_headers   : list (string * string);
  content_length : option nat;
  resp_body      : list Byte.byte;
  resp_fail      : option Exn
}.

(** The outbound call either raises before a response arrives or
    produces one. *)
Inductive Reply :=
  | Raise (e : Exn)
  | Respond (r : BackendResponse).

(** [web.Response(text=..., status=...)] and
    [web.StreamResponse(status=..., headers=...)]. *)
Inductive WebResponse :=
  | Response (text : string) (status : Z)
  | StreamResponse (status : Z) (headers : list (string * string)).

(** [response.content.iter_chunked(n)]: successive reads of at most [n]
    bytes until a read returns nothing; [fuel] bounds the number of
    reads. A read of 0 bytes returns nothing at once. *)
Fixpoint read_chunks (fuel n : nat) (data : list Byte.byte) : list (list Byte.byte) :=
  match fuel with
  | 0 => []
  | S fuel' =>
      match take n data with
      | [] => []
      | chunk => chunk :: read_chunks fuel' n (drop n data)
      end
  end.

(** The chunk size passed to [iter_chunked] by [handle_request]. *)
Definition chunk_size : nat := 8192.

Definition iter_chunked (n : nat) (data : list Byte.byte) : list (list Byte.byte) :=
  read_chunks (length data) n data.

(** [async for chunk in ...: await client_response.write(chunk)]: the
    writes made to the caller, oldest first. *)
Definition write_chunks (chunks : list (list Byte.byte)) : list (list Byte.byte) :=
  foldl (λ written chunk, written ++ [chunk]) [] chunks.

(** The outcome of one run of [handle_request]: the value returned
    ([inl]) or the exception that left the handler ([inr]), the chunks
    written to the caller, the outbound calls issued and the proxy
    afterwards. *)
Record Handled := mkHandled {
  returned    : WebResponse + Exn;
  written     : list (list Byte.byte);
  calls       : list OutboundCall;
  proxy_after : ReverseProxy
}.

(** [handle_request] up to the point where it awaits
    [self.session.request]: the early return, or the selected backend
    and the call about to be issued. *)
Definition begin_request (p : ReverseProxy) (request : Request)
  : (WebResponse + nat * OutboundCall) * ReverseProxy :=
  let '(backend, p) := select_backend p in
  match backend with
  | None => (inl (Response "503 Service Unavailable" 503%Z), p)
  | Some (i, backend) =>
      let target_url := url backend +:+ path_qs request in
      let headers := process_headers request in
      let p := update_backend i (add_connections 1) p in
      let request_body :=
        if can_read_body request then Some (content request) else None in
      (inr (i, mkCall (method request) target_url headers request_body false), p)
  end.

(** The rest of [handle_request], from the reply of the outbound call:
    the body of [try], the two [except] clauses and [finally]. *)
Definition complete_request (p : ReverseProxy) (i : nat) (reply : Reply)
  : (WebResponse + Exn) * list (list Byte.byte) * ReverseProxy :=
  let '(outcome, written) :=
    match reply with
    | Raise e => (inr e, [])
    | Respond response =>
        let client_response :=
          StreamResponse (resp_status response) (resp_headers response) in
        let written := write_chunks (iter_chunked chunk_size (resp_body response)) in
        match resp_fail response with
        | None => (inl client_response, written)
        | Some e => (inr e, written)
        end
    end in
  let '(outcome, p) :=
    match outcome with
    | inl client_response => (inl client_response, p)
    | inr TimeoutError =>
        (inl (Response "504 Gateway Timeout" 504%Z),
         update_backend i (set_healthy false) p)
    | inr OtherException =>
        (inl (Response "502 Bad Gateway" 502%Z),
         update_backend i (set_healthy false) p)
    | inr BaseException => (inr BaseException, p)
    end in
  (outcome, written, update_backend i (add_connections (-1)) p).

Definition handle_request (session : OutboundCall → Reply)
    (p : ReverseProxy) (request : Request) : Handled :=
  match begin_request p request with
  | (inl early, p) => mkHandled (inl early) [] [] p
  | (inr (i, call), p) =>
      let '(outcome, written, p) := complete_request p i (session call) in
      mkHandled outcome written [call] p
  end.

(** The exception that the outbound exchange raises, if any: at the
    call itself or while the response is streamed. *)
Definition raised (reply : Reply) : option Exn :=
  match reply with
  | Raise e => Some e
  | Respond response => resp_fail response
  end.

(** ** Health probing *)

(** What [self.session.get] does for one probe. *)
Inductive ProbeReply :=
  | ProbeStatus (status : Z)
  | ProbeRaise (e : Exn).

(** The body of the [for] loop of [health_check] on one backend: the
    backend afterwards, or the exception that [except Exception] does
    not catch. *)
Definition probe_backend (reply : ProbeReply) (b : Backend) : Backend + Exn :=
  match reply with
  | ProbeStatus status => inl (set_healthy (bool_decide (status = 200%Z)) b)
  | ProbeRaise BaseException => inr BaseException
  | ProbeRaise _ => inl (set_healthy false b)
  end.

(** The flag that one probe writes, when it writes one. *)
Definition probe_flag (reply : ProbeReply) : bool :=
  match reply with
  | ProbeStatus status => bool_decide (status = 200%Z)
  | ProbeRaise _ => false
  end.

(** One pass of [for backend in self.backends]; [session_get i u] is the
    reply to the probe of the backend at position [i], sent to [u]. The
    result lists the backends afterwards, the URLs probed, and the
    exception that ended the pass early, if any. *)
Fixpoint health_check_from (session_get : nat → string → ProbeReply)
    (i : nat) (bs : list Backend) : list Backend * list string * option Exn :=
  match bs with
  | [] => ([], [], None)
  | b :: bs' =>
      let target := url b +:+ "/health" in
      match probe_backend (session_get i target) b with
      | inl b' =>
          let '(bs'', probed, e) := health_check_from session_get (S i) bs' in
          (b' :: bs'', target :: probed, e)
      | inr e => (b :: bs', [target], Some e)
      end
  end.

Definition health_check_pass (session_get : nat → string → ProbeReply)
    (p : ReverseProxy) : ReverseProxy * list string * option Exn :=
  let '(bs, probed, e) := health_check_from session_get 0 (backends p) in
  (mkProxy bs (current_backend p), probed, e).

(** ** Aggregate health endpoint *)

Record BackendView := mkView {
  view_id          : string;
  view_healthy     : bool;
  view_connections : Z
}.

(** [web.json_response({'status': ..., 'backends': [...]}, status=...)] *)
Record JsonResponse := mkJson {
  body_status   : string;
  body_backends : list BackendView;
  code          : Z
}.

Definition health_handler (p : ReverseProxy) : JsonResponse :=
  let healthy_any := existsb healthy (backends p) in
  mkJson (if healthy_any then "healthy" else "unhealthy")
         (map (λ b, mkView (id b) (healthy b) (connections b)) (backends p))
         (if healthy_any then 200%Z else 503%Z).

(** ** Histories *)

(** What can happen to the proxy: a request is forwarded, or the prober
    makes one pass. *)
Inductive Event :=
  | Forward (session : OutboundCall → Reply) (request : Request)
  | Probe (session_get : nat → string → ProbeReply).

Definition step (p : ReverseProxy) (ev : Event) : ReverseProxy :=
  match ev with
  | Forward session request => proxy_after (handle_request session p request)
  | Probe session_get => (health_check_pass session_get p).1.1
  end.

Definition run (p : ReverseProxy) (evs : list Event) : ReverseProxy :=
  foldl step p evs.

(** [b['healthy']] of the backend at position [i]. *)
Definition healthy_at (p : ReverseProxy) (i : nat) : option bool :=
  healthy <$> backends p !! i.

(** [b['connections']] of the backend at position [i]. *)
Definition connections_at (p : ReverseProxy) (i : nat) : option Z :=
  connections <$> backends p !! i.

(** ** Construction *)

(** What [urlparse(...).port] gives: a number, [None], or a
    [ValueError] for a port that is not a number in range. *)
Inductive PortAttr :=
  | PortNumber (n : Z)
  | PortAbsent
  | PortInvalid.

(** The attributes of the result of [urlparse] that [_parse_backends]
    reads. *)
Record ParseResult := mkParse {
  u_scheme   : string;
  u_hostname : option string;
  u_port     : PortAttr
}.

(** The exceptions that [_parse_backends] and [__init__] raise on a
    configuration whose entries are objects of strings. *)
Inductive StartupError :=
  | KeyError (key : string)
  | ValueError.

Section Construction.

(** [urllib.parse.urlparse]; [None] is the [ValueError] it raises on a
    malformed URL. *)
Variable urlparse : string → option ParseResult.

(** The body of the loop of [_parse_backends] for one entry. *)
Definition parse_backend (backend : gmap string string) : StartupError + Backend :=
  match backend !! "url" with
  | None => inl (KeyError "url")
  | Some backend_url =>
      match urlparse backend_url with
      | None => inl ValueError
      | Some url =>
          let default_port :=
            if decide (u_scheme url = "https") then 443%Z else 80%Z in
          let id := default backend_url (backend !! "id") in
          match u_port url with
          | PortInvalid => inl ValueError
          | PortAbsent =>
              inr (mkBackend id backend_url (u_hostname url) default_port true 0)
          | PortNumber n =>
              inr (mkBackend id backend_url (u_hostname url)
                     (if decide (n = 0%Z) then default_port else n) true 0)
          end
      end
  end.

Fixpoint _parse_backends (backends : list (gmap string string))
  : StartupError + list Backend :=
  match backends with
  | [] => inr []
  | backend :: rest =>
      match parse_backend backend with
      | inl e => inl e
      | inr b =>
          match _parse_backends rest with
          | inl e => inl e
          | inr parsed => inr (b :: parsed)
          end
      end
  end.

(** [ReverseProxy.__init__] *)
Definition init (config : gmap string (list (gmap string string)))
  : StartupError + ReverseProxy :=
  match config !! "backends" with
  | None => inl (KeyError "backends")
  | Some backends =>
      match _parse_backends backends with
      | inl e => inl e
      | inr parsed => inr (mkProxy parsed 0)
      end
  end.

End Construction.

(** ** Routing *)

(** The two handlers that [create_app] registers. *)
Inductive Handler := HealthHandler | ProxyHandler.

(** The two kinds of path that [create_app] registers: a plain path,
    matched as a whole, and ['/{path:.*}'], which matches a slash
    followed by any characters other than a newline. *)
Inductive Pattern :=
  | Plain (path : string)
  | SlashAnything.

(** A resource of the router: its path and its routes, each a method
    (["*"] for any) and a handler. *)
Record Resource := mkResource {
  res_pattern : Pattern;
  res_routes  : list (string * Handler)
}.

Fixpoint no_newline (s : string) : bool :=
  match s with
  | EmptyString => true
  | String c s' =>
      if decide (c = Ascii.ascii_of_nat 10) then false else no_newline s'
  end.

Definition matches (pattern : Pattern) (path : string) : bool :=
  match pattern with
  | Plain p => bool_decide (p = path)
  | SlashAnything =>
      match path with
      | String c rest => bool_decide (c = Ascii.ascii_of_nat 47) && no_newline rest
      | EmptyString => false
      end
  end.

(** The first route of a resource that accepts the method. *)
Fixpoint resolve_route (routes : list (string * Handler)) (method : string)
  : option Handler :=
  match routes with
  | [] => None
  | (route_method, handler) :: routes' =>
      if bool_decide (route_method = method) || bool_decide (route_method = "*")
      then Some handler
      else resolve_route routes' method
  end.

(** The router walks its resources in registration order and takes the
    first whose path matches and which has a route for the method. *)
Fixpoint resolve (resources : list Resource) (method path : string)
  : option Handler :=
  match resources with
  | [] => None
  | resource :: resources' =>
      if matches (res_pattern resource) path then
        match resolve_route (res_routes resource) method with
        | Some handler => Some handler
        | None => resolve resources' method path
        end
      else resolve resources' method path
  end.

(** [add_get(path, handler)]: a route for [HEAD] and one for [GET]. *)
Definition add_get (path : string) (handler : Handler) : Resource :=
  mkResource (Plain path) [("HEAD", handler); ("GET", handler)].

(** The routes of [create_app]:
    [add_get('/_health', health_handler)] and
    [add_route('*', '/{path:.*}', proxy.handle_request)]. *)
Definition app_router : list Resource :=
  [add_get "/_health" HealthHandler;
   mkResource SlashAnything [("*", ProxyHandler)]].

(** ** The probing loop *)


(** ** Sample inputs *)

(** A pool of three backends, the second one marked unhealthy, with the
    cursor at 4. *)
Definition sample_pool : ReverseProxy :=
  mkProxy
    [mkBackend "backend1" "http://localhost:3001" (Some "localhost") 3001 true 0;
     mkBackend "backend2" "http://localhost:3002" (Some "localhost") 3002 false 0;
     mkBackend "backend3" "http://localhost:3003" (Some "localhost") 3003 true 2]
    4.

(** [GET /test?x=1] from 10.0.0.7 with the headers of an ordinary
    HTTP/1.1 client. *)
Definition sample_request : Request :=
  mkRequest "GET" "/test" "/test?x=1"
    [("Host", "localhost:8080"); ("Connection", "keep-alive");
     ("Accept", "*/*")]
    (Some "10.0.0.7") "http" false [].

(** A backend answer of five bytes that ends normally. *)
Definition sample_response : BackendResponse :=
  mkResponse 200 [("Content-Length", "5")] (Some 5)
    [Byte.x68; Byte.x65; Byte.x6c; Byte.x6c; Byte.x6f] None.

(** A backend answer of 10000 bytes, more than one chunk, that ends
    normally. *)
Definition sample_large_response : BackendResponse :=
  mkResponse 200 [("Content-Length", "10000")] (Some 10000)
    (replicate 10000 Byte.x78) None.

(** [urlparse] on the URLs of the sample configuration. *)
Definition sample_urlparse (u : string) : option ParseResult :=
  if decide (u = "http://localhost:3001") then
    Some (mkParse "http" (Some "localhost") (PortNumber 3001))
  else if decide (u = "https://origin.example") then
    Some (mkParse "https" (Some "origin.example") PortAbsent)
  else if decide (u = "http://origin.example:0") then
    Some (mkParse "http" (Some "origin.example") (PortNumber 0))
  else None.

(** [{"backends": [{"id": "backend1", "url": "http://localhost:3001"},
    {"url": "https://origin.example"}, {"url": "http://origin.example:0"}]}] *)
Definition sample_config : gmap string (list (gmap string string)) :=
  {[ "backends" :=
       [ {[ "id" := "backend1"; "url" := "http://localhost:3001" ]};
         {[ "url" := "https://origin.example" ]};
         {[ "url" := "http://origin.example:0" ]} ] ]}.

(** The call that [handle_request] issues for [request] to the backend
    [b]: the arguments of [self.session.request] in the source. *)
Definition call_to (b : Backend) (request : Request) : OutboundCall :=
  mkCall (method request) (url b +:+ path_qs request) (process_headers request)
    (if can_read_body request then Some (content request) else None) false.

(** A pool whose only healthy backend is the second one. *)
Definition sample_last_pool : ReverseProxy :=
  mkProxy
    [mkBackend "backend1" "http://localhost:3001" (Some "localhost") 3001 false 0;
     mkBackend "backend2" "http://localhost:3002" (Some "localhost") 3002 true 1]
    7.

(** * Properties *)

(** ** The healthy subset *)

Section Available.
Implicit Types (bs : list Backend) (b : Backend) (i j k : nat).

Lemma available_from_elem bs i j b :
  (j, b) ∈ available_from i bs ↔
  ∃ k, j = i + k ∧ bs !! k = Some b ∧ healthy b = true.
Proof.
  revert i. induction bs as [|b0 bs IH]; intros i; simpl.
  - split; [by intros ?%elem_of_nil | by intros (k & _ & ? & _)].
  - destruct (healthy b0) eqn:Hb0.
    + rewrite elem_of_cons, IH. split.
      * intros [[= -> ->] | (k & -> & ? & ?)].
        -- exists 0. by rewrite Nat.add_0_r.
        -- exists (S k). split; [lia | done].
      * intros ([|k] & -> & Hk & Hh); simpl in Hk.
        -- left. injection Hk as ->. by rewrite Nat.add_0_r.
        -- right. exists k. split; [lia | done].
    + rewrite IH. split.
      * intros (k & -> & ? & ?). exists (S k). split; [lia | done].
      * intros ([|k] & -> & Hk & Hh); simpl in Hk.
        -- injection Hk as ->. congruence.
        -- exists k. split; [lia | done].
Qed.

Lemma available_from_NoDup bs i : NoDup (available_from i bs).*1.
Proof.
  revert i. induction bs as [|b0 bs IH]; intros i; simpl; [constructor|].
  destruct (healthy b0); [|apply IH].
  rewrite fmap_cons. constructor; [|apply IH].
  intros ((j & b) & Hj & (k & ? & _)%available_from_elem)%list_elem_of_fmap.
  simpl in Hj. lia.
Qed.

(** The records of the healthy subset are those of the pool that pass
    the test, in pool order. *)
Lemma available_from_records bs i :
  (available_from i bs).*2 = filter (λ b, healthy b = true) bs.
Proof.
  revert i. induction bs as [|b0 bs IH]; intros i; simpl; [done|].
  rewrite filter_cons. destruct (healthy b0) eqn:Hb0.
  - rewrite decide_True by done. by rewrite fmap_cons, IH.
  - rewrite decide_False by congruence. apply IH.
Qed.

Lemma available_from_nil bs i :
  available_from i bs = [] ↔ Forall (λ b, healthy b = false) bs.
Proof.
  revert i. induction bs as [|b0 bs IH]; intros i; simpl.
  - split; [constructor | done].
  - rewrite Forall_cons. destruct (healthy b0).
    + split; [done | by intros [? _]].
    + rewrite IH. tauto.
Qed.

(** The healthy subset lists pool positions in increasing order. *)
Lemma available_from_increasing bs i j1 j2 (x1 x2 : nat * Backend) :
  j1 < j2 →
  available_from i bs !! j1 = Some x1 →
  available_from i bs !! j2 = Some x2 →
  x1.1 < x2.1.
Proof.
  revert i j1 j2. induction bs as [|b0 bs IH]; intros i j1 j2 Hlt H1 H2; [done|].
  cbn [available_from] in H1, H2. destruct (healthy b0); [|by eapply IH].
  destruct j2 as [|j2]; [lia|]. destruct j1 as [|j1]; simpl in H1, H2.
  - injection H1 as <-. destruct x2 as [k b2].
    apply list_elem_of_lookup_2, available_from_elem in H2 as (k' & -> & _).
    simpl. lia.
  - eapply (IH (S i) j1 j2); [lia | done..].
Qed.

Lemma available_elem (p : ReverseProxy) j b :
  (j, b) ∈ available p ↔ backends p !! j = Some b ∧ healthy b = true.
Proof.
  unfold available. rewrite available_from_elem. split.
  - by intros (k & -> & ?).
  - intros ?. by exists j.
Qed.

Lemma available_cursor (p : ReverseProxy) c :
  available (mkProxy (backends p) c) = available p.
Proof. done. Qed.
End Available.

(** ** Selection *)

Section Select.
Implicit Types (p : ReverseProxy) (n k c : nat).

Lemma lookup_cursor {A} (l : list A) c : l ≠ [] → is_Some (l !! (c mod length l)).
Proof.
  intros Hl. apply lookup_lt_is_Some, Nat.mod_upper_bound.
  by destruct l.
Qed.

Lemma select_backend_backends p : backends (select_backend p).2 = backends p.
Proof. unfold select_backend. by destruct (available p). Qed.

Lemma select_backend_None p :
  (select_backend p).1 = None ↔ available p = [].
Proof.
  unfold select_backend. destruct (available p) as [|x av] eqn:Hav; [done|].
  cbn [fst]. split; [|done]. intros Hnone%lookup_ge_None.
  pose proof (Nat.mod_upper_bound (current_backend p) (length (x :: av))) as Hlt.
  simpl in *. lia.
Qed.

Lemma select_backend_Some p :
  available p ≠ [] →
  select_backend p =
    (available p !! (current_backend p mod length (available p)),
     mkProxy (backends p) (current_backend p + 1)).
Proof. unfold select_backend. by destruct (available p). Qed.

Lemma rotate_nat_add_mod c k n : rotate_nat_add c k n = (c + k) mod n.
Proof.
  unfold rotate_nat_add.
  by rewrite <-Nat2Z.inj_add, <-Nat2Z.inj_mod, Nat2Z.id.
Qed.

(** [k] selections in a row from a pool with a non-empty healthy
    subset. *)
Lemma select_many_spec p k :
  available p ≠ [] →
  select_many k p =
    ((λ j, available p !! ((current_backend p + j) mod length (available p)))
       <$> seq 0 k,
     mkProxy (backends p) (current_backend p + k)).
Proof.
  revert p. induction k as [|k IH]; intros p Hav.
  - simpl. rewrite Nat.add_0_r. by destruct p.
  - cbn [select_many]. rewrite select_backend_Some by done.
    rewrite IH by (by rewrite available_cursor).
    rewrite available_cursor. cbn [backends current_backend].
    cbn [seq]. rewrite <-(fmap_S_seq 0 k), fmap_cons, <-list_fmap_compose.
    rewrite Nat.add_0_r. f_equal; [|f_equal; lia].
    f_equal. apply list_fmap_ext. intros _ j _. simpl.
    do 2 f_equal. lia.
Qed.

Lemma select_many_empty p k :
  available p = [] → select_many k p = (replicate k None, p).
Proof.
  intros Hav. induction k as [|k IH]; [done|].
  cbn [select_many]. unfold select_backend. rewrite Hav.
  by rewrite IH.
Qed.

Lemma select_round p :
  (select_many (length (available p)) p).1 =
    Some <$> rotate (current_backend p) (available p).
Proof.
  destruct (decide (available p = [])) as [Hav|Hav].
  - rewrite Hav. unfold rotate. by rewrite drop_nil, take_nil.
  - rewrite select_many_spec by done. cbn [fst].
    apply list_eq. intros k. rewrite !list_lookup_fmap.
    destruct (decide (k < length (available p))) as [Hk|Hk].
    + rewrite lookup_seq_lt by done. simpl.
      rewrite lookup_rotate_r, rotate_nat_add_mod by done.
      destruct (available p !! _) eqn:Hlk; [done|].
      apply lookup_ge_None in Hlk.
      pose proof (Nat.mod_upper_bound (current_backend p + k)
                    (length (available p))) as Hlt.
      destruct (available p); [done | simpl in *; lia].
    + rewrite lookup_seq_ge by lia.
      rewrite (proj2 (lookup_ge_None _ _)); [done|].
      rewrite length_rotate. lia.
Qed.

Lemma rotate_Permutation {A} (l : list A) n : rotate n l ≡ₚ l.
Proof.
  unfold rotate. rewrite <-(take_drop (n mod length l) l) at 5.
  apply Permutation_app_comm.
Qed.
End Select.

(** ** Mutation of one backend *)

Section Update.
Implicit Types (p : ReverseProxy) (i j : nat) (f : Backend → Backend).

Lemma healthy_at_update p i j f :
  (∀ b, healthy (f b) = healthy b) →
  healthy_at (update_backend i f p) j = healthy_at p j.
Proof.
  intros Hf. unfold healthy_at, update_backend. cbn [backends].
  destruct (decide (i = j)) as [->|Hne].
  - rewrite list_lookup_alter_eq. destruct (backends p !! j); simpl; [|done].
    by rewrite Hf.
  - by rewrite list_lookup_alter_ne.
Qed.

Lemma healthy_at_mark p i j :
  healthy_at (update_backend i (set_healthy false) p) j =
    if decide (i = j) then (λ _, false) <$> healthy_at p j else healthy_at p j.
Proof.
  unfold healthy_at, update_backend. cbn [backends]. case_decide as Hij.
  - subst. rewrite list_lookup_alter_eq. by destruct (backends p !! j).
  - by rewrite list_lookup_alter_ne.
Qed.

Lemma connections_at_add p i j d :
  connections_at (update_backend i (add_connections d) p) j =
    if decide (i = j) then (λ c, c + d)%Z <$> connections_at p j
    else connections_at p j.
Proof.
  unfold connections_at, update_backend. cbn [backends]. case_decide as Hij.
  - subst. rewrite list_lookup_alter_eq. by destruct (backends p !! j).
  - by rewrite list_lookup_alter_ne.
Qed.

Lemma connections_at_mark p i j :
  connections_at (update_backend i (set_healthy false) p) j = connections_at p j.
Proof.
  unfold connections_at, update_backend. cbn [backends].
  destruct (decide (i = j)) as [->|Hne].
  - rewrite list_lookup_alter_eq. by destruct (backends p !! j).
  - by rewrite list_lookup_alter_ne.
Qed.

Lemma update_backend_cursor p i f :
  current_backend (update_backend i f p) = current_backend p.
Proof. done. Qed.

Lemma update_backend_length p i f :
  length (backends (update_backend i f p)) = length (backends p).
Proof. unfold update_backend. cbn [backends]. apply length_alter. Qed.
End Update.

(** ** The two halves of [handle_request] *)

Section Forwarding.
Implicit Types (p : ReverseProxy) (request : Request) (reply : Reply).

Lemma begin_request_unfold p request :
  begin_request p request =
    match (select_backend p).1 with
    | None => (inl (Response "503 Service Unavailable" 503%Z), p)
    | Some (i, b) =>
        (inr (i, mkCall (method request) (url b +:+ path_qs request)
                   (process_headers request)
                   (if can_read_body request then Some (content request)
                    else None)
                   false),
         update_backend i (add_connections 1)
           (mkProxy (backends p) (current_backend p + 1)))
    end.
Proof.
  unfold begin_request. destruct (decide (available p = [])) as [Hav|Hav].
  - unfold select_backend. by rewrite Hav.
  - rewrite select_backend_Some by done. cbn [fst].
    destruct (lookup_cursor (available p) (current_backend p) Hav)
      as [[i b] ->]. done.
Qed.

(** The proxy after the second half, by the exception raised. *)
Lemma complete_request_proxy p i reply :
  (complete_request p i reply).2 =
    update_backend i (add_connections (-1))
      match raised reply with
      | Some TimeoutError | Some OtherException =>
          update_backend i (set_healthy false) p
      | Some BaseException | None => p
      end.
Proof.
  unfold complete_request, raised.
  destruct reply as [[]|r]; [done..|]. by destruct (resp_fail r) as [[]|].
Qed.

Lemma complete_request_returned p i reply :
  (complete_request p i reply).1.1 =
    match reply, raised reply with
    | _, Some TimeoutError => inl (Response "504 Gateway Timeout" 504%Z)
    | _, Some OtherException => inl (Response "502 Bad Gateway" 502%Z)
    | _, Some BaseException => inr BaseException
    | Respond r, None => inl (StreamResponse (resp_status r) (resp_headers r))
    | Raise e, None => inr e
    end.
Proof.
  unfold complete_request, raised.
  destruct reply as [[]|r]; [done..|]. by destruct (resp_fail r) as [[]|].
Qed.

Lemma handle_request_unfold session p request :
  handle_request session p request =
    match begin_request p request with
    | (inl early, p1) => mkHandled (inl early) [] [] p1
    | (inr (i, call), p1) =>
        let r := complete_request p1 i (session call) in
        mkHandled r.1.1 r.1.2 [call] r.2
    end.
Proof.
  unfold handle_request. destruct (begin_request p request) as [[?|[i call]] p1];
    [done|]. by destruct (complete_request _ _ _) as [[??]?].
Qed.
End Forwarding.

(** ** Round-robin selection *)

(** C2. Over a pool whose healthy subset has [n] members, [n] calls of
    [select_backend] in a row return the healthy subset rotated by the
    cursor value before the first call: the backend returned by call [k]
    is the one at index [(cursor + k) mod n] of the subset, every healthy
    backend is returned exactly once (the returned list is a permutation
    of the subset, whose positions are pairwise distinct and are exactly
    the positions of the healthy backends of the pool), and after [k] of
    the calls the cursor has advanced by [k] while the pool is
    unchanged. The subset itself is in the order of the original
    backend sequence: its records are the healthy records of the pool
    in pool order, and the pool positions it lists are increasing. *)
Theorem select_round_robin (p : ReverseProxy) :
  let av := available p in
  let n := length av in
  let c := current_backend p in
  (select_many n p).1 = Some <$> rotate c av
  ∧ (∀ k, k < n → (select_many n p).1 !! k = Some (av !! ((c + k) mod n)))
  ∧ rotate c av ≡ₚ av
  ∧ NoDup (rotate c av).*1
  ∧ (∀ i b, (i, b) ∈ rotate c av ↔ backends p !! i = Some b ∧ healthy b = true)
  ∧ (∀ k, k ≤ n → (select_many k p).2 = mkProxy (backends p) (c + k))
  ∧ av.*2 = filter (λ b, healthy b = true) (backends p)
  ∧ (∀ j1 j2 x1 x2, j1 < j2 → av !! j1 = Some x1 → av !! j2 = Some x2 →
       x1.1 < x2.1).
Proof.
  intros av n c. split_and!.
  - apply select_round.
  - intros k Hk. assert (av ≠ []) as Hav by (intros E; subst n; rewrite E in Hk; simpl in Hk; lia).
    subst av n c. rewrite select_many_spec by done. cbn [fst].
    rewrite list_lookup_fmap, lookup_seq_lt by done. done.
  - apply rotate_Permutation.
  - rewrite (rotate_Permutation av c). apply available_from_NoDup.
  - intros i b. rewrite elem_of_rotate. apply available_elem.
  - intros k Hk. destruct (decide (av = [])) as [Hav|Hav].
    + subst n. rewrite Hav in Hk. simpl in Hk. assert (k = 0) as -> by lia.
      simpl. subst c. rewrite Nat.add_0_r. by destruct p.
    + subst av. by rewrite select_many_spec.
  - apply available_from_records.
  - intros j1 j2 x1 x2. apply available_from_increasing.
Qed.

(** [sample_pool], cursor 4, healthy positions 0 and 2: two selections
    visit position 0 and then position 2. *)
Example select_many_sample :
  (option_map fst <$> (select_many 2 sample_pool).1) = [Some 0; Some 2]
  ∧ current_backend (select_many 2 sample_pool).2 = 6.
Proof. vm_compute. done. Qed.

(** C3. [select_backend] returns either nothing or a backend of the pool
    whose [healthy] flag is true; it returns nothing exactly when every
    backend is unhealthy, and [handle_request] then returns the 503
    response, writes nothing and issues no outbound call. *)
Theorem select_only_healthy (session : OutboundCall → Reply)
    (p : ReverseProxy) (request : Request) :
  match (select_backend p).1 with
  | Some (i, b) => backends p !! i = Some b ∧ healthy b = true
  | None =>
      let h := handle_request session p request in
      returned h = inl (Response "503 Service Unavailable" 503%Z)
      ∧ calls h = [] ∧ written h = []
  end
  ∧ ((select_backend p).1 = None ↔ Forall (λ b, healthy b = false) (backends p)).
Proof.
  split.
  - rewrite handle_request_unfold, begin_request_unfold.
    destruct (decide (available p = [])) as [Hav|Hav].
    + rewrite (proj2 (select_backend_None p) Hav). done.
    + rewrite select_backend_Some by done. cbn [fst].
      destruct (lookup_cursor (available p) (current_backend p) Hav)
        as [[i b] Hlk].
      rewrite Hlk. by apply list_elem_of_lookup_2, available_elem in Hlk.
  - rewrite select_backend_None. apply available_from_nil.
Qed.

(** C10. [select_backend] never changes the list of backend records;
    when it returns nothing the whole proxy, cursor included, is
    unchanged, and when it returns a backend the cursor is one more than
    before. *)
Theorem select_frame (p : ReverseProxy) :
  backends (select_backend p).2 = backends p
  ∧ match (select_backend p).1 with
    | None => (select_backend p).2 = p
    | Some _ => current_backend (select_backend p).2 = current_backend p + 1
    end.
Proof.
  split; [apply select_backend_backends|].
  unfold select_backend. destruct (available p) as [|x av] eqn:Hav; [done|].
  cbn [fst snd current_backend].
  assert (x :: av ≠ []) as Hne by done.
  by destruct (lookup_cursor (x :: av) (current_backend p) Hne) as [? ->].
Qed.

(** ** Chunked streaming *)

Section Streaming.
Implicit Types (data chunk : list Byte.byte) (chunks : list (list Byte.byte)).

Lemma chunk_size_value : Z.of_nat chunk_size = 8192%Z.
Proof. vm_compute. reflexivity. Qed.

Lemma chunk_size_pos : 0 < chunk_size.
Proof. pose proof chunk_size_value. lia. Qed.

Lemma write_chunks_from chunks acc :
  foldl (λ written chunk, written ++ [chunk]) acc chunks = acc ++ chunks.
Proof.
  revert acc. induction chunks as [|c chunks IH]; intros acc; simpl.
  - by rewrite app_nil_r.
  - by rewrite IH, <-app_assoc.
Qed.

Lemma write_chunks_all chunks : write_chunks chunks = chunks.
Proof. apply write_chunks_from. Qed.

(** With enough fuel the reads return the whole of [data]. *)
Lemma read_chunks_concat fuel n data :
  0 < n → length data ≤ fuel → concat (read_chunks fuel n data) = data.
Proof.
  intros Hn. revert data. induction fuel as [|fuel IH]; intros data Hlen.
  - destruct data; [done | simpl in Hlen; lia].
  - cbn [read_chunks]. destruct (take n data) as [|x chunk] eqn:Htake.
    + destruct data, n; simpl in *; first [done | lia].
    + cbn [concat]. rewrite IH, <-Htake; [apply take_drop|].
      rewrite length_drop. simpl in Hlen. lia.
Qed.


Lemma iter_chunked_concat n data :
  0 < n → concat (iter_chunked n data) = data.
Proof. intros Hn. by apply read_chunks_concat. Qed.

Lemma complete_request_written (p : ReverseProxy) i reply :
  (complete_request p i reply).1.2 =
    match reply with
    | Raise _ => []
    | Respond r => iter_chunked chunk_size (resp_body r)
    end.
Proof.
  unfold complete_request.
  destruct reply as [[]|r]; [reflexivity..|]. rewrite write_chunks_all.
  destruct (resp_fail r) as [[]|]; reflexivity.
Qed.
End Streaming.



(** A response without a declared length, as a backend using chunked
    transfer sends it, is forwarded in full as well. *)
Example streaming_undeclared_sample :
  let response := mkResponse 200 [("Transfer-Encoding", "chunked")] None
                    [Byte.x68; Byte.x69] None in
  let h := handle_request (λ _, Respond response) sample_pool sample_request in
  returned h = inl (StreamResponse 200 [("Transfer-Encoding", "chunked")])
  ∧ written h = [[Byte.x68; Byte.x69]].
Proof. vm_compute. done. Qed.

(** A body of 10000 bytes is written as a chunk of 8192 bytes followed
    by one of 1808 bytes. *)
Example iter_chunked_large :
  length <$> iter_chunked chunk_size (resp_body sample_large_response)
  = [8192; 1808].
Proof. vm_compute. reflexivity. Qed.

(** ** Failure classification and the connection counter *)

Section Attempt.
Implicit Types (p : ReverseProxy) (request : Request) (reply : Reply).

Lemma select_backend_elem p i b :
  (select_backend p).1 = Some (i, b) →
  backends p !! i = Some b ∧ healthy b = true.
Proof.
  intros Hsel. destruct (decide (available p = [])) as [Hav|Hav].
  - apply select_backend_None in Hav. congruence.
  - rewrite select_backend_Some in Hsel by done. cbn [fst] in Hsel.
    by apply list_elem_of_lookup_2, available_elem in Hsel.
Qed.

Lemma healthy_at_cursor p c j :
  healthy_at (mkProxy (backends p) c) j = healthy_at p j.
Proof. done. Qed.

Lemma connections_at_cursor p c j :
  connections_at (mkProxy (backends p) c) j = connections_at p j.
Proof. done. Qed.

(** The flags after the second half of an attempt on backend [i]. *)
Lemma complete_request_healthy p i reply j :
  healthy_at (complete_request p i reply).2 j =
    match raised reply with
    | Some TimeoutError | Some OtherException =>
        if decide (i = j) then (λ _, false) <$> healthy_at p j
        else healthy_at p j
    | Some BaseException | None => healthy_at p j
    end.
Proof.
  rewrite complete_request_proxy, healthy_at_update by done.
  destruct (raised reply) as [[]|]; by rewrite ?healthy_at_mark.
Qed.

(** The counters after the second half of an attempt on backend [i]. *)
Lemma complete_request_connections p i reply j :
  connections_at (complete_request p i reply).2 j =
    if decide (i = j) then (λ c, c - 1)%Z <$> connections_at p j
    else connections_at p j.
Proof.
  rewrite complete_request_proxy, connections_at_add.
  by destruct (raised reply) as [[]|]; rewrite ?connections_at_mark.
Qed.
End Attempt.

(** C4. In an attempt for which [select_backend] returned the backend at
    position [i], exactly one outbound call is issued; if that exchange
    raises a timeout, [handle_request] returns the 504 response and the
    flag of backend [i] is false afterwards; if it raises any other
    [Exception], [handle_request] returns the 502 response and the flag
    of backend [i] is false afterwards; otherwise the flag of backend
    [i] is still true. When [select_backend] returned nothing, no
    backend record is changed at all. *)
Theorem forward_failure_classification (session : OutboundCall → Reply)
    (p : ReverseProxy) (request : Request) :
  let h := handle_request session p request in
  match (select_backend p).1 with
  | None => backends (proxy_after h) = backends p
  | Some (i, b) =>
      ∃ call, calls h = [call] ∧
        match raised (session call) with
        | Some TimeoutError =>
            returned h = inl (Response "504 Gateway Timeout" 504%Z)
            ∧ healthy_at (proxy_after h) i = Some false
        | Some OtherException =>
            returned h = inl (Response "502 Bad Gateway" 502%Z)
            ∧ healthy_at (proxy_after h) i = Some false
        | Some BaseException | None =>
            healthy_at (proxy_after h) i = Some true
        end
  end.
Proof.
  intros h. subst h. rewrite handle_request_unfold, begin_request_unfold.
  destruct (select_backend p).1 as [[i b]|] eqn:Hsel; [|done].
  apply select_backend_elem in Hsel as [Hlk Hb].
  eexists. split; [done|]. cbn [returned proxy_after].
  rewrite complete_request_returned, complete_request_healthy.
  rewrite decide_True by done.
  rewrite healthy_at_update, healthy_at_cursor by done.
  unfold healthy_at. rewrite Hlk. simpl. rewrite Hb.
  by destruct (session _) as [[]|r]; [..|destruct (resp_fail r) as [[]|] eqn:Hf];
    simpl; rewrite ?Hf.
Qed.

(** [sample_pool] selects its first backend; a timeout marks it
    unhealthy and answers 504, a connection error answers 502. *)
Example forward_timeout_sample :
  let h := handle_request (λ _, Raise TimeoutError) sample_pool sample_request in
  returned h = inl (Response "504 Gateway Timeout" 504%Z)
  ∧ healthy <$> backends (proxy_after h) = [false; false; true]
  ∧ connections <$> backends (proxy_after h) = [0; 0; 2]%Z
  ∧ current_backend (proxy_after h) = 5.
Proof. vm_compute. done. Qed.

Example forward_error_sample :
  let h := handle_request (λ _, Raise OtherException) sample_pool sample_request in
  returned h = inl (Response "502 Bad Gateway" 502%Z)
  ∧ healthy <$> backends (proxy_after h) = [false; false; true].
Proof. vm_compute. done. Qed.

(** C7. In an attempt for which [select_backend] returned the backend at
    position [i]: when the outbound call is issued, the counter of
    backend [i] is one more than before the attempt and every other
    counter is as before; whatever the outbound exchange does (a
    response, a timeout, any other exception, at the call or while
    streaming), and whatever state the proxy is in by then, the rest of
    the handler takes one off the counter of backend [i] and leaves
    every other counter alone; so after the attempt every counter has
    the value it had before. An attempt for
    which [select_backend] returned nothing issues no call and changes no
    backend record. *)
Theorem connection_counter_balanced (session : OutboundCall → Reply)
    (p : ReverseProxy) (request : Request) :
  let h := handle_request session p request in
  match begin_request p request with
  | (inl _, p1) =>
      (select_backend p).1 = None ∧ calls h = []
      ∧ backends p1 = backends p ∧ backends (proxy_after h) = backends p
  | (inr (i, call), p1) =>
      (∃ b, (select_backend p).1 = Some (i, b))
      ∧ is_Some (connections_at p i)
      ∧ calls h = [call]
      ∧ (∀ j, connections_at p1 j =
              if decide (i = j) then (λ c, c + 1)%Z <$> connections_at p j
              else connections_at p j)
      ∧ (∀ p' reply j, connections_at (complete_request p' i reply).2 j =
              if decide (i = j) then (λ c, c - 1)%Z <$> connections_at p' j
              else connections_at p' j)
      ∧ (∀ j, connections_at (proxy_after h) j = connections_at p j)
  end.
Proof.
  intros h. subst h. rewrite handle_request_unfold, begin_request_unfold.
  destruct (select_backend p).1 as [[i b]|] eqn:Hsel; [|done].
  apply select_backend_elem in Hsel as [Hlk Hb].
  assert (∀ j, connections_at
                 (update_backend i (add_connections 1)
                    (mkProxy (backends p) (current_backend p + 1))) j =
               if decide (i = j) then (λ c, c + 1)%Z <$> connections_at p j
               else connections_at p j) as Hinc.
  { intros j. by rewrite connections_at_add, connections_at_cursor. }
  split_and!; [by eexists | | done | done | |].
  - unfold connections_at. rewrite Hlk. by eexists.
  - intros p' reply j. apply complete_request_connections.
  - intros j. cbn [proxy_after].
    rewrite complete_request_connections, Hinc. case_decide; [|done].
    destruct (connections_at p j) as [c|]; [|done]. simpl. f_equal. lia.
Qed.

(** ** Health probing *)

Section Probing.
Implicit Types (g : nat → string → ProbeReply) (bs : list Backend)
  (b : Backend) (reply : ProbeReply) (i k : nat).

Lemma probe_flag_true reply : probe_flag reply = true ↔ reply = ProbeStatus 200%Z.
Proof.
  destruct reply as [status|e]; simpl.
  - rewrite bool_decide_eq_true. split; [by intros -> | by intros [= ->]].
  - split; done.
Qed.

Lemma set_healthy_same b : set_healthy (healthy b) b = b.
Proof. by destruct b. Qed.

Lemma probe_backend_inl reply b :
  reply ≠ ProbeRaise BaseException →
  probe_backend reply b = inl (set_healthy (probe_flag reply) b).
Proof. by destruct reply as [status|[]]. Qed.

Lemma probe_backend_cases reply b :
  match probe_backend reply b with
  | inl b' => b' = set_healthy (probe_flag reply) b
              ∧ reply ≠ ProbeRaise BaseException
  | inr e => reply = ProbeRaise BaseException ∧ e = BaseException
  end.
Proof. by destruct reply as [status|[]]. Qed.

Lemma health_check_from_length g i bs :
  length (health_check_from g i bs).1.1 = length bs.
Proof.
  revert i. induction bs as [|b bs IH]; intros i; [done|].
  cbn [health_check_from]. destruct (probe_backend _ b); [|done].
  specialize (IH (S i)). destruct (health_check_from g (S i) bs) as [[??]?].
  simpl in *. by rewrite IH.
Qed.

(** A pass leaves each record as it was or rewrites its flag from the
    reply to its own probe. *)
Lemma health_check_from_lookup g i bs k b :
  bs !! k = Some b →
  ∃ b', (health_check_from g i bs).1.1 !! k = Some b'
        ∧ (b' = b
           ∨ b' = set_healthy (probe_flag (g (i + k) (url b +:+ "/health"))) b).
Proof.
  revert i k. induction bs as [|b0 bs IH]; intros i k Hk; [done|].
  cbn [health_check_from].
  pose proof (probe_backend_cases (g i (url b0 +:+ "/health")) b0) as Hp.
  destruct (probe_backend _ b0) as [b0'|e].
  - destruct Hp as [-> _]. specialize (IH (S i)).
    destruct (health_check_from g (S i) bs) as [[bs' probed] e'].
    destruct k as [|k]; simpl in *.
    + injection Hk as <-. eexists. split; [done|]. right.
      by rewrite Nat.add_0_r.
    + destruct (IH k Hk) as (b' & ? & Hb'). exists b'. split; [done|].
      by replace (i + S k) with (S i + k) by lia.
  - exists b. by split; [|left].
Qed.

(** A pass in which no probe is cancelled probes every backend, in
    pool order, and rewrites every flag. *)
Lemma health_check_from_complete g i bs :
  (∀ k b, bs !! k = Some b →
          g (i + k) (url b +:+ "/health") ≠ ProbeRaise BaseException) →
  health_check_from g i bs =
    (imap (λ k b, set_healthy (probe_flag (g (i + k) (url b +:+ "/health"))) b) bs,
     (λ b, url b +:+ "/health") <$> bs,
     None).
Proof.
  revert i. induction bs as [|b0 bs IH]; intros i Hok; [done|].
  cbn [health_check_from]. rewrite probe_backend_inl.
  2:{ specialize (Hok 0 b0 eq_refl). by rewrite Nat.add_0_r in Hok. }
  rewrite IH.
  2:{ intros k b Hk. specialize (Hok (S k) b Hk).
      by replace (i + S k) with (S i + k) in Hok by lia. }
  rewrite fmap_cons. cbn [imap]. rewrite Nat.add_0_r. do 3 f_equal.
  apply imap_ext. intros k b _. simpl. do 3 f_equal. lia.
Qed.
End Probing.

(** C6. One probe of a backend either rewrites its [healthy] flag and
    nothing else, to true if and only if the reply is a response with
    status 200 (any other status, a timeout and any other [Exception]
    give false), or is cut short by an exception that is not an
    [Exception], which writes nothing. One pass over the pool keeps the
    number of backends and the cursor, and every record keeps its id,
    url, host, port and counter; when no probe of the pass is cut short,
    the pass probes [url + "/health"] of every backend in pool order,
    unhealthy ones included, and afterwards the flag of each backend is
    true exactly when its own probe answered 200. *)
Theorem probe_sets_flag (session_get : nat → string → ProbeReply) (p : ReverseProxy) :
  let r := health_check_pass session_get p in
  (∀ reply b,
     match probe_backend reply b with
     | inl b' => b' = set_healthy (healthy b') b
                 ∧ (healthy b' = true ↔ reply = ProbeStatus 200%Z)
     | inr _ => reply = ProbeRaise BaseException
     end)
  ∧ length (backends r.1.1) = length (backends p)
  ∧ current_backend r.1.1 = current_backend p
  ∧ (∀ k b, backends p !! k = Some b →
       ∃ b', backends r.1.1 !! k = Some b' ∧ b' = set_healthy (healthy b') b)
  ∧ ((∀ k b, backends p !! k = Some b →
        session_get k (url b +:+ "/health") ≠ ProbeRaise BaseException) →
     r.2 = None
     ∧ r.1.2 = (λ b, url b +:+ "/health") <$> backends p
     ∧ ∀ k b, backends p !! k = Some b →
         ∃ b', backends r.1.1 !! k = Some b'
               ∧ (healthy b' = true ↔
                  session_get k (url b +:+ "/health") = ProbeStatus 200%Z)).
Proof.
  intros r. subst r. unfold health_check_pass. split_and!.
  - intros reply b. pose proof (probe_backend_cases reply b) as Hp.
    destruct (probe_backend reply b) as [b'|e]; [|by destruct Hp].
    destruct Hp as [-> _]. split; [done|]. apply probe_flag_true.
  - pose proof (health_check_from_length session_get 0 (backends p)) as Hlen.
    by destruct (health_check_from _ _ _) as [[??]?].
  - by destruct (health_check_from _ _ _) as [[??]?].
  - intros k b Hk.
    destruct (health_check_from_lookup session_get 0 _ _ _ Hk) as (b' & Hb' & Hor).
    destruct (health_check_from _ _ _) as [[??]?]. exists b'. split; [done|].
    destruct Hor as [-> | ->]; [by rewrite set_healthy_same | done].
  - intros Hok. rewrite health_check_from_complete by done.
    split_and!; [done..|]. intros k b Hk. cbn [fst snd backends].
    rewrite list_lookup_imap, Hk. eexists. split; [done|]. apply probe_flag_true.
Qed.

Lemma probe_sets_flag_witness :
  let session_get := λ (k : nat) (_ : string),
    if decide (k = 1) then ProbeStatus 200 else ProbeStatus 503 in
  let r := health_check_pass session_get sample_pool in
  r.2 = None
  ∧ r.1.2 = (λ b, url b +:+ "/health") <$> backends sample_pool
  ∧ ∀ k b, backends sample_pool !! k = Some b →
      ∃ b', backends r.1.1 !! k = Some b'
            ∧ (healthy b' = true ↔
               session_get k (url b +:+ "/health") = ProbeStatus 200%Z).
Proof.
  intros session_get r.
  apply (probe_sets_flag session_get sample_pool).
  intros k b _. unfold session_get. by case_decide.
Defined.

(** A pass over [sample_pool] in which only the second backend answers
    200: it becomes healthy, the other two unhealthy. *)
Example health_check_pass_sample :
  let r := health_check_pass
             (λ k _, if decide (k = 1) then ProbeStatus 200
                     else ProbeStatus 503) sample_pool in
  healthy <$> backends r.1.1 = [false; true; false]
  ∧ r.1.2 = ["http://localhost:3001/health"; "http://localhost:3002/health";
             "http://localhost:3003/health"]
  ∧ r.2 = None.
Proof. vm_compute. done. Qed.

(** A probe that times out marks the backend unhealthy. *)
Example probe_timeout_sample (b : Backend) :
  probe_backend (ProbeRaise TimeoutError) b = inl (set_healthy false b).
Proof. reflexivity. Qed.

(** ** Histories: forwarding never heals *)

Section Histories.
Implicit Types (p : ReverseProxy) (ev : Event) (evs : list Event) (i : nat).

Lemma handle_request_healthy_false session p request i :
  healthy_at p i = Some false →
  healthy_at (proxy_after (handle_request session p request)) i = Some false.
Proof.
  intros Hi. rewrite handle_request_unfold, begin_request_unfold.
  destruct (select_backend p).1 as [[j b]|]; [|done]. cbn [proxy_after].
  rewrite complete_request_healthy, healthy_at_update, healthy_at_cursor, Hi
    by done.
  destruct (raised _) as [[]|]; try done; by case_decide.
Qed.

Lemma health_check_pass_healthy g p i :
  healthy_at p i = Some false →
  healthy_at (health_check_pass g p).1.1 i = Some false
  ∨ (∃ u, g i u = ProbeStatus 200%Z).
Proof.
  unfold healthy_at, health_check_pass. intros Hi.
  destruct (backends p !! i) as [b|] eqn:Hlk; [|done]. injection Hi as Hb.
  destruct (health_check_from_lookup g 0 _ _ _ Hlk) as (b' & Hb' & Hor).
  destruct (health_check_from _ _ _) as [[??]?]. cbn [fst backends] in *.
  rewrite Hb'. destruct Hor as [-> | ->]; simpl.
  - left. by rewrite Hb.
  - destruct (probe_flag _) eqn:Hflag; [right | by left].
    apply probe_flag_true in Hflag. eauto.
Qed.

Lemma step_healthy p ev i :
  healthy_at p i = Some false →
  healthy_at (step p ev) i = Some false
  ∨ (∃ g u, ev = Probe g ∧ g i u = ProbeStatus 200%Z).
Proof.
  intros Hi. destruct ev as [session request|g]; simpl.
  - left. by apply handle_request_healthy_false.
  - destruct (health_check_pass_healthy g p i Hi) as [?|[u ?]]; eauto.
Qed.

Lemma run_healthy p evs i :
  healthy_at p i = Some false →
  healthy_at (run p evs) i = Some false
  ∨ (∃ g u, Probe g ∈ evs ∧ g i u = ProbeStatus 200%Z).
Proof.
  revert p. induction evs as [|ev evs IH]; intros p Hi; [by left|].
  cbn [run foldl]. destruct (step_healthy p ev i Hi) as [Hi'|(g & u & -> & ?)].
  - destruct (IH _ Hi') as [?|(g & u & ? & ?)]; [by left|].
    right. exists g, u. split; [by apply list_elem_of_further | done].
  - right. exists g, u. split; [apply list_elem_of_here | done].
Qed.
End Histories.

(** C5. A backend whose [healthy] flag is false keeps it false through
    any sequence of runs of [handle_request], whatever the outbound
    exchanges do; and in any history of forwarded requests and probe
    passes after which its flag is true, some probe pass received a
    response with status 200 for that backend. *)
Theorem forwarding_never_heals (p : ReverseProxy) (i : nat) :
  healthy_at p i = Some false →
  (∀ attempts : list ((OutboundCall → Reply) * Request),
     healthy_at (run p ((λ a, Forward a.1 a.2) <$> attempts)) i = Some false)
  ∧ (∀ evs, healthy_at (run p evs) i = Some true →
       ∃ session_get u, Probe session_get ∈ evs
                        ∧ session_get i u = ProbeStatus 200%Z).
Proof.
  intros Hi. split.
  - intros attempts.
    destruct (run_healthy p ((λ a, Forward a.1 a.2) <$> attempts) i Hi)
      as [?|(g & u & Hin & _)]; [done|].
    apply list_elem_of_fmap in Hin as (a & ? & _). done.
  - intros evs Htrue.
    destruct (run_healthy p evs i Hi) as [Hfalse|?]; [congruence | done].
Qed.

Lemma forwarding_never_heals_witness :
  healthy_at sample_pool 1 = Some false
  ∧ healthy_at
      (run sample_pool
         [Forward (λ _, Respond sample_response) sample_request;
          Forward (λ _, Raise TimeoutError) sample_request;
          Forward (λ _, Respond sample_response) sample_request]) 1
    = Some false.
Proof.
  split; [reflexivity|].
  apply (proj1 (forwarding_never_heals sample_pool 1 eq_refl)
           [(λ _, Respond sample_response, sample_request);
            (λ _, Raise TimeoutError, sample_request);
            (λ _, Respond sample_response, sample_request)]).
Defined.

(** ** Aggregate health *)

(** C9. [health_handler] answers either with status "healthy" and code
    200, when some backend has its flag set, or with status "unhealthy"
    and code 503, when every flag is false; its [backends] list has one
    entry per backend, in pool order, made of the id, the flag and the
    counter of that backend. *)
Theorem health_aggregation (p : ReverseProxy) :
  let r := health_handler p in
  ((body_status r = "healthy" ∧ code r = 200%Z
    ∧ ∃ b, b ∈ backends p ∧ healthy b = true)
   ∨ (body_status r = "unhealthy" ∧ code r = 503%Z
      ∧ Forall (λ b, healthy b = false) (backends p)))
  ∧ length (body_backends r) = length (backends p)
  ∧ ∀ k, body_backends r !! k =
         (λ b, mkView (id b) (healthy b) (connections b)) <$> backends p !! k.
Proof.
  intros r. subst r. unfold health_handler. cbn [body_status code body_backends].
  split_and!.
  - destruct (existsb healthy (backends p)) eqn:Hex.
    + left. split_and!; [done..|].
      apply existsb_exists in Hex as (b & Hin & Hb).
      exists b. by rewrite list_elem_of_In.
    + right. split_and!; [done..|]. apply Forall_forall. intros b Hin.
      destruct (healthy b) eqn:Hb; [|done].
      assert (existsb healthy (backends p) = true) as Hex'; [|congruence].
      apply existsb_exists. exists b. by rewrite <-list_elem_of_In.
  - apply length_map.
  - intros k. apply list_lookup_fmap.
Qed.

(** Three backends with flags healthy, healthy, unhealthy: "healthy"
    and 200. All three unhealthy: "unhealthy" and 503. *)
Example health_aggregation_mixed (b1 b2 b3 : Backend) (c : nat) :
  let r := health_handler
             (mkProxy [set_healthy true b1; set_healthy true b2;
                       set_healthy false b3] c) in
  body_status r = "healthy" ∧ code r = 200%Z.
Proof. done. Qed.

Example health_aggregation_all_down (b1 b2 b3 : Backend) (c : nat) :
  let r := health_handler
             (mkProxy [set_healthy false b1; set_healthy false b2;
                       set_healthy false b3] c) in
  body_status r = "unhealthy" ∧ code r = 503%Z.
Proof. done. Qed.

(** ** Header rewriting *)

Section Headers.
Implicit Types (h l : list (string * string)) (k v : string)
  (d : gmap string string) (request : Request).

Lemma getone_is_Some h k v : (k, v) ∈ h → is_Some (getone h k).
Proof.
  induction h as [|[k' v'] h IH]; [by intros ?%elem_of_nil|].
  intros [[= <- <-]|Hin]%elem_of_cons; simpl.
  - rewrite decide_True by done. by eexists.
  - case_decide; [by eexists | by apply IH].
Qed.

(** The plain dict has exactly the names of the multidict, compared as
    exact strings, each with the first value the multidict holds for
    it up to letter case. *)
Lemma dict_of_headers_fold h l d k :
  (∀ kv, kv ∈ l → is_Some (getone h kv.1)) →
  foldl (λ d kv, match getone h kv.1 with
                 | Some v => <[kv.1 := v]> d
                 | None => d
                 end) d l !! k =
    if decide (k ∈ l.*1) then getone h k else d !! k.
Proof.
  revert d. induction l as [|[k' v'] l IH]; intros d Hl.
  - cbn [foldl]. rewrite decide_False; [done|]. rewrite fmap_nil.
    apply not_elem_of_nil.
  - cbn [foldl]. rewrite IH by (intros kv ?; apply Hl; by right).
    destruct (Hl (k', v')) as [v Hv]; [by left|]. cbn [fst] in *. rewrite Hv.
    rewrite fmap_cons. cbn [fst].
    destruct (decide (k ∈ l.*1)) as [Hin|Hnin].
    + rewrite decide_True by (by right). done.
    + destruct (decide (k = k')) as [->|Hne].
      * rewrite decide_True by (by left). by rewrite lookup_insert_eq.
      * rewrite decide_False by (by intros [?|?]%elem_of_cons).
        by rewrite lookup_insert_ne.
Qed.

Lemma dict_of_headers_lookup h k :
  dict_of_headers h !! k = if decide (k ∈ h.*1) then getone h k else None.
Proof.
  unfold dict_of_headers. rewrite dict_of_headers_fold.
  - by rewrite lookup_empty.
  - intros [k' v'] Hin. by eapply getone_is_Some.
Qed.

(** What [process_headers] does: the three forwarding headers are set,
    the four names of [hop_by_hop] are absent as spelled there, and
    every other name keeps the value of the plain dict. *)
Lemma process_headers_lookup request k :
  process_headers request !! k =
    if decide (k = "X-Real-IP") then
      Some (remote_or (remote request) "127.0.0.1")
    else if decide (k = "X-Forwarded-Proto") then Some (scheme request)
    else if decide (k = "X-Forwarded-For") then
      Some (remote_or (remote request) "127.0.0.1")
    else if decide (k ∈ hop_by_hop) then None
    else dict_of_headers (headers request) !! k.
Proof.
  unfold process_headers, hop_by_hop. cbn [foldl].
  rewrite !lookup_insert, !lookup_delete.
  repeat case_decide; simplify_eq; try done; exfalso;
    repeat match goal with
           | H : _ ∈ _ :: _ |- _ => apply elem_of_cons in H as [?|H]
           | H : _ ∈ [] |- _ => by apply elem_of_nil in H
           | H : ¬ _ ∈ _ |- _ => apply H; repeat first [by left | right]
           end; simplify_eq.
Qed.
End Headers.

(** C1. The request of [sample_request], which carries
    [Connection: keep-alive] as clients spell it, is forwarded from
    [sample_pool] with the forwarding headers set to the caller's
    address and scheme, and with the [Connection] header still there:
    [process_headers] removes the hop-by-hop names only in the lower-case
    spelling of its list. *)
Theorem hop_by_hop_kept_when_capitalised :
  ∃ call,
    calls (handle_request (λ _, Respond sample_response)
             sample_pool sample_request) = [call]
    ∧ call_headers call = process_headers sample_request
    ∧ call_headers call !! "Connection" = Some "keep-alive"
    ∧ call_headers call !! "X-Forwarded-For" = Some "10.0.0.7"
    ∧ call_headers call !! "X-Real-IP" = Some "10.0.0.7"
    ∧ call_headers call !! "X-Forwarded-Proto" = Some "http".
Proof.
  eexists. split; [vm_compute; reflexivity|].
  split_and!; vm_compute; reflexivity.
Qed.

(** ** Construction of the pool *)

Section Parsing.
Context (urlparse : string → option ParseResult).
Implicit Types (entry : gmap string string) (cfg : list (gmap string string))
  (b : Backend) (bs : list Backend).

(** The port that [_parse_backends] stores for a parsed URL. *)
Lemma parse_backend_inr entry b :
  parse_backend urlparse entry = inr b →
  ∃ u r, entry !! "url" = Some u ∧ urlparse u = Some r
    ∧ u_port r ≠ PortInvalid
    ∧ b = mkBackend (default u (entry !! "id")) u (u_hostname r)
            (match u_port r with
             | PortNumber n =>
                 if decide (n = 0%Z)
                 then (if decide (u_scheme r = "https") then 443%Z else 80%Z)
                 else n
             | _ => if decide (u_scheme r = "https") then 443%Z else 80%Z
             end) true 0.
Proof.
  unfold parse_backend. intros Hp.
  destruct (entry !! "url") as [u|]; [|done].
  destruct (urlparse u) as [r|] eqn:Hr; [|done]. exists u, r.
  destruct (u_port r); simplify_eq; by split_and!.
Qed.

Lemma parse_backends_Forall2 cfg bs :
  _parse_backends urlparse cfg = inr bs ↔
  Forall2 (λ entry b, parse_backend urlparse entry = inr b) cfg bs.
Proof.
  revert bs. induction cfg as [|entry cfg IH]; intros bs; simpl.
  - split; [intros [= <-]; constructor | by intros ->%Forall2_nil_inv_l].
  - destruct (parse_backend urlparse entry) as [e|b] eqn:Hb.
    + split; [done|]. intros (b & bs' & Hb' & _ & _)%Forall2_cons_inv_l.
      congruence.
    + destruct (_parse_backends urlparse cfg) as [e|parsed] eqn:Hrest.
      * split; [done|]. intros (b' & bs' & _ & Hbs' & _)%Forall2_cons_inv_l.
        by apply IH in Hbs'.
      * split.
        -- intros [= <-]. constructor; [done | by apply IH].
        -- intros (b' & bs' & Hb' & Hbs' & ->)%Forall2_cons_inv_l.
           apply IH in Hbs'. congruence.
Qed.

Lemma parse_backends_healthy cfg bs :
  _parse_backends urlparse cfg = inr bs → Forall (λ b, healthy b = true) bs.
Proof.
  intros Hp%parse_backends_Forall2. induction Hp as [|entry b cfg bs Hb _ IH];
    constructor; [|done].
  by apply parse_backend_inr in Hb as (u & r & _ & _ & _ & ->).
Qed.
End Parsing.

Lemma available_from_all_healthy (bs : list Backend) (i : nat) :
  Forall (λ b, healthy b = true) bs →
  available_from i bs = imap (λ k b, (i + k, b)) bs.
Proof.
  intros Hall. revert i. induction Hall as [|b bs Hb _ IH]; intros i; [done|].
  cbn [available_from imap]. rewrite Hb, Nat.add_0_r, IH. f_equal.
  apply imap_ext. intros k b' _. simpl. f_equal. lia.
Qed.

Lemma rotate_0 {A} (l : list A) : rotate 0 l = l.
Proof.
  unfold rotate. rewrite Nat.Div0.mod_0_l. by rewrite drop_0, take_0, app_nil_r.
Qed.

(** X1. When [_parse_backends] succeeds, the pool has one backend per
    configuration entry, in the order of the configuration; each
    backend has the [url] of its entry, the [id] of its entry or, when
    the entry has none, its [url], and starts healthy with no
    connection. *)
Theorem parse_backends_fresh (urlparse : string → option ParseResult)
    (cfg : list (gmap string string)) (bs : list Backend) :
  _parse_backends urlparse cfg = inr bs →
  length bs = length cfg
  ∧ ∀ k entry, cfg !! k = Some entry →
      ∃ b u, bs !! k = Some b ∧ entry !! "url" = Some u
        ∧ url b = u
        ∧ id b = match entry !! "id" with Some name => name | None => u end
        ∧ healthy b = true ∧ connections b = 0%Z.
Proof.
  intros Hp%parse_backends_Forall2. split.
  - symmetry. by eapply Forall2_length.
  - intros k entry Hk.
    destruct (Forall2_lookup_l _ _ _ _ _ Hp Hk) as (b & Hb & Hparse).
    apply parse_backend_inr in Hparse as (u & r & Hu & _ & _ & ->).
    eexists _, u. by split_and!.
Qed.

Lemma parse_backends_fresh_witness :
  let cfg := [ ({[ "id" := "backend1"; "url" := "http://localhost:3001" ]}
                  : gmap string string);
               {[ "url" := "https://origin.example" ]} ] in
  let bs := [ mkBackend "backend1" "http://localhost:3001" (Some "localhost")
                3001 true 0;
              mkBackend "https://origin.example" "https://origin.example"
                (Some "origin.example") 443 true 0 ] in
  _parse_backends sample_urlparse cfg = inr bs
  ∧ length bs = length cfg
  ∧ ∀ k entry, cfg !! k = Some entry →
      ∃ b u, bs !! k = Some b ∧ entry !! "url" = Some u
        ∧ url b = u
        ∧ id b = match entry !! "id" with Some name => name | None => u end
        ∧ healthy b = true ∧ connections b = 0%Z.
Proof.
  intros cfg bs.
  assert (_parse_backends sample_urlparse cfg = inr bs) as Hp
    by (vm_compute; reflexivity).
  split; [exact Hp|]. exact (parse_backends_fresh sample_urlparse cfg bs Hp).
Defined.

(** X2. The port stored for a backend is never 0: it is the port of the
    URL when the URL has one other than 0, and otherwise 443 for the
    scheme [https] and 80 for any other scheme. *)
Theorem parse_backend_port (urlparse : string → option ParseResult)
    (entry : gmap string string) (b : Backend) (u : string) (r : ParseResult) :
  parse_backend urlparse entry = inr b →
  entry !! "url" = Some u →
  urlparse u = Some r →
  host b = u_hostname r
  ∧ port b = match u_port r with
             | PortNumber n =>
                 if decide (n = 0%Z)
                 then (if decide (u_scheme r = "https") then 443%Z else 80%Z)
                 else n
             | _ => if decide (u_scheme r = "https") then 443%Z else 80%Z
             end
  ∧ port b ≠ 0%Z.
Proof.
  intros Hp Hu Hr.
  apply parse_backend_inr in Hp as (u' & r' & Hu' & Hr' & _ & ->).
  rewrite Hu in Hu'. injection Hu' as <-.
  rewrite Hr in Hr'. injection Hr' as <-.
  cbn [host port]. split_and!; [done..|].
  destruct (u_port r) as [n| |]; repeat case_decide; done.
Qed.

Lemma parse_backend_port_witness :
  let entry : gmap string string := {[ "url" := "http://origin.example:0" ]} in
  let b := mkBackend "http://origin.example:0" "http://origin.example:0"
             (Some "origin.example") 80 true 0 in
  parse_backend sample_urlparse entry = inr b
  ∧ host b = Some "origin.example" ∧ port b = 80%Z ∧ port b ≠ 0%Z.
Proof.
  intros entry b.
  assert (parse_backend sample_urlparse entry = inr b) as Hp
    by (vm_compute; reflexivity).
  split; [exact Hp|].
  exact (parse_backend_port sample_urlparse entry b "http://origin.example:0"
           (mkParse "http" (Some "origin.example") (PortNumber 0))
           Hp eq_refl eq_refl).
Defined.

(** X3. [_parse_backends] is all or nothing: it returns the backends of
    all entries, or it raises the exception of the first entry that
    cannot be parsed, every entry before it being parsable; an entry
    without [url] raises [KeyError] whether or not it has an [id]. *)
Theorem parse_backends_first_error (urlparse : string → option ParseResult)
    (cfg : list (gmap string string)) :
  match _parse_backends urlparse cfg with
  | inr bs => Forall2 (λ entry b, parse_backend urlparse entry = inr b) cfg bs
  | inl e =>
      ∃ k entry, cfg !! k = Some entry
        ∧ parse_backend urlparse entry = inl e
        ∧ Forall (λ entry', ∃ b, parse_backend urlparse entry' = inr b) (take k cfg)
  end
  ∧ ∀ entry, entry !! "url" = None →
      parse_backend urlparse entry = inl (KeyError "url").
Proof.
  split.
  - induction cfg as [|entry cfg IH]; [constructor|]. cbn [_parse_backends].
    destruct (parse_backend urlparse entry) as [e|b] eqn:Hb.
    + exists 0, entry. by split_and!; [..|constructor].
    + destruct (_parse_backends urlparse cfg) as [e|parsed].
      * destruct IH as (k & entry' & Hk & He & Hbefore).
        exists (S k), entry'. split_and!; [done..|].
        cbn [take]. constructor; [by eexists | done].
      * by constructor.
  - intros entry Hu. unfold parse_backend. by rewrite Hu.
Qed.

(** X4. A proxy built by [__init__] has its cursor at 0, and its first
    selections, as many as there are backends, return the backends in
    the order of the configuration, each once. *)
Theorem init_round_robin (urlparse : string → option ParseResult)
    (config : gmap string (list (gmap string string))) (p : ReverseProxy) :
  init urlparse config = inr p →
  current_backend p = 0
  ∧ (select_many (length (backends p)) p).1
    = imap (λ k b, Some (k, b)) (backends p).
Proof.
  unfold init. intros Hinit.
  destruct (config !! "backends") as [cfg|]; [|done].
  destruct (_parse_backends urlparse cfg) as [e|bs] eqn:Hp; [done|].
  injection Hinit as <-. split; [done|].
  apply parse_backends_healthy in Hp.
  assert (available (mkProxy bs 0) = imap (λ k b, (k, b)) bs) as Hav.
  { unfold available. cbn [backends]. by rewrite available_from_all_healthy. }
  assert (length (available (mkProxy bs 0)) = length bs) as Hlen
    by (by rewrite Hav, length_imap).
  cbn [backends]. rewrite <-Hlen, select_round. cbn [current_backend].
  rewrite rotate_0, Hav. apply list_eq. intros k.
  rewrite list_lookup_fmap, !list_lookup_imap. by destruct (bs !! k).
Qed.

Lemma init_round_robin_witness :
  ∃ p, init sample_urlparse sample_config = inr p
    ∧ current_backend p = 0
    ∧ (select_many (length (backends p)) p).1
      = imap (λ k b, Some (k, b)) (backends p).
Proof.
  eexists. assert (init sample_urlparse sample_config = inr _) as Hinit
    by (vm_compute; reflexivity).
  split; [exact Hinit|].
  exact (init_round_robin sample_urlparse sample_config _ Hinit).
Defined.

(** ** One attempt, as a whole *)

Section Whole.
Implicit Types (p : ReverseProxy) (request : Request) (reply : Reply)
  (b : Backend) (i j : nat).

Lemma handle_request_none session p request :
  (select_backend p).1 = None →
  handle_request session p request =
    mkHandled (inl (Response "503 Service Unavailable" 503%Z)) [] [] p.
Proof.
  intros Hsel. by rewrite handle_request_unfold, begin_request_unfold, Hsel.
Qed.

Lemma handle_request_selected session p request i b :
  (select_backend p).1 = Some (i, b) →
  handle_request session p request =
    let r := complete_request
               (update_backend i (add_connections 1)
                  (mkProxy (backends p) (current_backend p + 1)))
               i (session (call_to b request)) in
    mkHandled r.1.1 r.1.2 [call_to b request] r.2.
Proof.
  intros Hsel. by rewrite handle_request_unfold, begin_request_unfold, Hsel.
Qed.

Lemma add_connections_cancel b :
  add_connections (-1) (add_connections 1 b) = b.
Proof.
  destruct b as [? ? ? ? ? c]. unfold add_connections. simpl. f_equal. lia.
Qed.

Lemma add_connections_mark b :
  add_connections (-1) (set_healthy false (add_connections 1 b))
  = set_healthy false b.
Proof.
  destruct b as [? ? ? ? ? c]. unfold add_connections, set_healthy. simpl.
  f_equal. lia.
Qed.

(** The pool after an attempt on the backend at position [i]. *)
Lemma attempt_pool p c i b reply :
  backends p !! i = Some b →
  (complete_request
     (update_backend i (add_connections 1) (mkProxy (backends p) c)) i reply).2
  = mkProxy
      match raised reply with
      | Some TimeoutError | Some OtherException =>
          <[i := set_healthy false b]> (backends p)
      | Some BaseException | None => backends p
      end c.
Proof.
  intros Hi. rewrite complete_request_proxy. unfold update_backend.
  assert (alter (add_connections (-1)) i
            (alter (set_healthy false) i
               (alter (add_connections 1) i (backends p)))
          = <[i := set_healthy false b]> (backends p)) as Hfail.
  { apply list_eq. intros j. destruct (decide (i = j)) as [<-|Hne].
    - rewrite !list_lookup_alter_eq, Hi. cbn [fmap option_fmap option_map].
      rewrite add_connections_mark. symmetry. apply list_lookup_insert_eq.
      by eapply lookup_lt_Some.
    - by rewrite !list_lookup_alter_ne, list_lookup_insert_ne. }
  assert (alter (add_connections (-1)) i
            (alter (add_connections 1) i (backends p)) = backends p) as Hok.
  { apply list_eq. intros j. destruct (decide (i = j)) as [<-|Hne].
    - rewrite !list_lookup_alter_eq, Hi. simpl. by rewrite add_connections_cancel.
    - by rewrite !list_lookup_alter_ne. }
  destruct (raised reply) as [[]|]; cbn [backends current_backend];
    by rewrite ?Hfail, ?Hok.
Qed.

Lemma handle_request_pool session p request i b :
  (select_backend p).1 = Some (i, b) →
  proxy_after (handle_request session p request)
  = mkProxy
      match raised (session (call_to b request)) with
      | Some TimeoutError | Some OtherException =>
          <[i := set_healthy false b]> (backends p)
      | Some BaseException | None => backends p
      end (current_backend p + 1).
Proof.
  intros Hsel. rewrite (handle_request_selected _ _ _ _ _ Hsel).
  cbn [proxy_after]. apply attempt_pool.
  by apply select_backend_elem in Hsel as [? _].
Qed.

(** Clearing the flag of the backend at position [i] removes it, and
    nothing else, from the healthy subset. *)
Lemma available_from_clear (f : Backend → Backend) (bs : list Backend) j i :
  (∀ b, healthy (f b) = false) →
  available_from j (alter f i bs)
  = filter (λ x, x.1 ≠ j + i) (available_from j bs).
Proof.
  intros Hf. revert j i. induction bs as [|b0 bs IH]; intros j i; [done|].
  assert (∀ l : list (nat * Backend), (∀ x, x ∈ l → j < x.1) →
            filter (λ x, x.1 ≠ j + 0) l = l) as Hkeep.
  { intros l Hl. induction l as [|x l IHl]; [done|].
    rewrite filter_cons, decide_True
      by (specialize (Hl x (list_elem_of_here _ _)); lia).
    f_equal. apply IHl. intros y Hy. apply Hl. by right. }
  destruct i as [|i].
  - change (alter f 0 (b0 :: bs)) with (f b0 :: bs).
    cbn [available_from]. rewrite Hf. destruct (healthy b0).
    + rewrite filter_cons, decide_False by (simpl; lia).
      symmetry. apply Hkeep. intros [k b'] (k' & -> & _)%available_from_elem.
      simpl. lia.
    + symmetry. apply Hkeep. intros [k b'] (k' & -> & _)%available_from_elem.
      simpl. lia.
  - change (alter f (S i) (b0 :: bs)) with (b0 :: alter f i bs).
    cbn [available_from]. rewrite (IH (S j) i).
    replace (S j + i) with (j + S i) by lia.
    destruct (healthy b0); [|done].
    by rewrite filter_cons, decide_True by (simpl; lia).
Qed.

(** The healthy subset after the second half of a failed attempt on the
    backend at position [i], from any state. *)
Lemma complete_request_available p i reply :
  raised reply = Some TimeoutError ∨ raised reply = Some OtherException →
  available (complete_request p i reply).2
  = filter (λ x, x.1 ≠ i) (available p).
Proof.
  intros Hfail. rewrite complete_request_proxy.
  assert (available
            (update_backend i (add_connections (-1))
               (update_backend i (set_healthy false) p))
          = filter (λ x, x.1 ≠ i) (available p)) as Hav.
  { unfold available, update_backend. cbn [backends].
    rewrite list_alter_alter_eq.
    by rewrite (available_from_clear _ _ 0 i). }
  by destruct Hfail as [-> | ->].
Qed.

(** Removing a member of the healthy subset makes it one shorter. *)
Lemma available_remove p i b :
  (i, b) ∈ available p →
  S (length (filter (λ x, x.1 ≠ i) (available p))) = length (available p).
Proof.
  intros Hin.
  assert (available p ≡ₚ (i, b) :: filter (λ x, x.1 ≠ i) (available p)) as Hperm.
  { etrans;
      [symmetry;
       apply (filter_app_complement (λ x : nat * Backend, x.1 ≠ i))|].
    rewrite Permutation_app_comm.
    change ((i, b) :: ?l) with ([(i, b)] ++ l). apply Permutation_app_tail.
    apply NoDup_Permutation.
    - apply NoDup_filter. eapply NoDup_fmap_1, available_from_NoDup.
    - apply NoDup_singleton.
    - intros [k b']. rewrite list_elem_of_filter, list_elem_of_singleton.
      simpl. split.
      + intros (Hk%dec_stable & Hin'). subst k.
        apply available_elem in Hin as [Hlk _].
        apply available_elem in Hin' as [Hlk' _]. congruence.
      + intros [= -> ->]. split; [by intros ? | done]. }
  by rewrite Hperm at 2.
Qed.
End Whole.

(** X5. A proxy without backends answers every request with the 503
    response, without any outbound call and without changing its state,
    and its health endpoint answers "unhealthy" with code 503 and an
    empty list. *)
Theorem empty_pool_unavailable (session : OutboundCall → Reply)
    (p : ReverseProxy) (request : Request) :
  backends p = [] →
  handle_request session p request
  = mkHandled (inl (Response "503 Service Unavailable" 503%Z)) [] [] p
  ∧ health_handler p = mkJson "unhealthy" [] 503.
Proof.
  intros Hbs. split.
  - apply handle_request_none, select_backend_None.
    unfold available. by rewrite Hbs.
  - unfold health_handler. by rewrite Hbs.
Qed.

Lemma empty_pool_unavailable_witness :
  let p := mkProxy [] 0 in
  backends p = []
  ∧ handle_request (λ _, Respond sample_response) p sample_request
    = mkHandled (inl (Response "503 Service Unavailable" 503%Z)) [] [] p
  ∧ health_handler p = mkJson "unhealthy" [] 503.
Proof.
  intros p. split; [reflexivity|].
  exact (empty_pool_unavailable (λ _, Respond sample_response) p
           sample_request eq_refl).
Defined.

(** X6. [handle_request] issues at most one outbound call and never a
    second one after a failure. The call goes to a backend of the pool
    whose flag is set, at the URL of that backend followed by the path
    and query of the request, with the method of the request, the
    headers of [process_headers], the request body only when the request
    can have one, and with redirects not followed. *)
Theorem outbound_call_shape (session : OutboundCall → Reply)
    (p : ReverseProxy) (request : Request) :
  let h := handle_request session p request in
  match calls h with
  | [] => (select_backend p).1 = None
  | [call] =>
      ∃ i b, (select_backend p).1 = Some (i, b)
        ∧ backends p !! i = Some b ∧ healthy b = true
        ∧ call_url call = url b +:+ path_qs request
        ∧ call_method call = method request
        ∧ call_headers call = process_headers request
        ∧ call_data call
          = (if can_read_body request then Some (content request) else None)
        ∧ allow_redirects call = false
  | _ :: _ :: _ => False
  end.
Proof.
  intros h. subst h.
  destruct (select_backend p).1 as [[i b]|] eqn:Hsel.
  - rewrite (handle_request_selected _ _ _ _ _ Hsel). cbn [calls].
    exists i, b. by apply select_backend_elem in Hsel as [??].
  - by rewrite (handle_request_none _ _ _ Hsel).
Qed.

(** X7. The whole effect of one run of [handle_request] on the proxy:
    nothing when no backend is selected; otherwise the cursor is one
    more than before and the list of backends is as before, except
    that after a timeout or any other [Exception] the selected backend
    has its flag cleared. A response, whatever its status, and a
    cancellation leave every backend record as it was. *)
Theorem attempt_effect_on_pool (session : OutboundCall → Reply)
    (p : ReverseProxy) (request : Request) :
  let h := handle_request session p request in
  match (select_backend p).1 with
  | None => proxy_after h = p
  | Some (i, b) =>
      current_backend (proxy_after h) = current_backend p + 1
      ∧ backends (proxy_after h)
        = match raised (session (call_to b request)) with
          | Some TimeoutError | Some OtherException =>
              <[i := set_healthy false b]> (backends p)
          | Some BaseException | None => backends p
          end
  end.
Proof.
  intros h. subst h.
  destruct (select_backend p).1 as [[i b]|] eqn:Hsel.
  - by rewrite (handle_request_pool _ _ _ _ _ Hsel).
  - by rewrite (handle_request_none _ _ _ Hsel).
Qed.

(** X8. What the caller gets from an attempt on a selected backend. A
    response whose stream ends normally is passed on with the status
    and the headers of the backend, whatever the status (a redirect is
    not followed, no header is removed). Whatever was read of the body
    is written to the caller in chunks, also when the stream then
    fails, in which case the handler still returns the 504 or 502
    response. An exception that is not an [Exception] leaves the
    handler as it is. When the call itself raises, nothing is
    written. *)
Theorem response_passthrough (session : OutboundCall → Reply)
    (p : ReverseProxy) (request : Request) (i : nat) (b : Backend) :
  (select_backend p).1 = Some (i, b) →
  let h := handle_request session p request in
  match session (call_to b request) with
  | Respond r =>
      written h = iter_chunked chunk_size (resp_body r)
      ∧ concat (written h) = resp_body r
      ∧ returned h =
          match resp_fail r with
          | None => inl (StreamResponse (resp_status r) (resp_headers r))
          | Some TimeoutError => inl (Response "504 Gateway Timeout" 504%Z)
          | Some OtherException => inl (Response "502 Bad Gateway" 502%Z)
          | Some BaseException => inr BaseException
          end
  | Raise e =>
      written h = []
      ∧ returned h =
          match e with
          | TimeoutError => inl (Response "504 Gateway Timeout" 504%Z)
          | OtherException => inl (Response "502 Bad Gateway" 502%Z)
          | BaseException => inr BaseException
          end
  end.
Proof.
  intros Hsel h. subst h. rewrite (handle_request_selected _ _ _ _ _ Hsel).
  cbn [written returned].
  rewrite complete_request_written, complete_request_returned.
  destruct (session _) as [[]|r]; [done..|]. cbn [raised].
  rewrite iter_chunked_concat by apply chunk_size_pos.
  by destruct (resp_fail r) as [[]|].
Qed.

Lemma response_passthrough_witness :
  let redirect := mkResponse 302 [("Location", "/elsewhere"); ("Connection", "close")]
                    (Some 0) [] None in
  let h := handle_request (λ _, Respond redirect) sample_pool sample_request in
  written h = [] ∧ concat (written h) = []
  ∧ returned h
    = inl (StreamResponse 302 [("Location", "/elsewhere"); ("Connection", "close")]).
Proof.
  intros redirect h.
  exact (response_passthrough (λ _, Respond redirect) sample_pool sample_request
           0 (mkBackend "backend1" "http://localhost:3001" (Some "localhost")
                3001 true 0) eq_refl).
Defined.

(** X9. A backend whose flag is false is never selected, and stays so
    through any sequence of forwarded requests: after them
    [select_backend] still returns another backend or nothing. *)
Theorem unhealthy_never_selected (p : ReverseProxy) (i : nat)
    (attempts : list ((OutboundCall → Reply) * Request)) :
  healthy_at p i = Some false →
  let p' := run p ((λ a, Forward a.1 a.2) <$> attempts) in
  ∀ b, (select_backend p').1 ≠ Some (i, b).
Proof.
  intros Hi p' b Hsel.
  assert (healthy_at p' i = Some false) as Hi'.
  { destruct (run_healthy p ((λ a, Forward a.1 a.2) <$> attempts) i Hi)
      as [?|(g & u & Hin & _)]; [done|].
    by apply list_elem_of_fmap in Hin as (a & ? & _). }
  apply select_backend_elem in Hsel as [Hlk Hb].
  unfold healthy_at in Hi'. rewrite Hlk in Hi'. simpl in Hi'. congruence.
Qed.

Lemma unhealthy_never_selected_witness :
  healthy_at sample_pool 1 = Some false
  ∧ ∀ b, (select_backend
            (run sample_pool
               [Forward (λ _, Respond sample_response) sample_request;
                Forward (λ _, Raise OtherException) sample_request])).1
         ≠ Some (1, b).
Proof.
  split; [reflexivity|].
  exact (unhealthy_never_selected sample_pool 1
           [(λ _, Respond sample_response, sample_request);
            (λ _, Raise OtherException, sample_request)] eq_refl).
Defined.

(** X10. When the outbound exchange of an attempt on the backend at
    position [i] ends in a timeout or any other [Exception], the rest
    of the handler, which runs without suspending, removes that backend
    and no other from the healthy subset as it stands at that moment,
    whatever other requests and probes have done to the pool since the
    backend was selected; if the backend was still healthy, the subset
    has one member fewer, the others in the same order. *)
Theorem failure_shrinks_available (p' : ReverseProxy) (i : nat) (reply : Reply) :
  raised reply = Some TimeoutError ∨ raised reply = Some OtherException →
  let p'' := (complete_request p' i reply).2 in
  available p'' = filter (λ x, x.1 ≠ i) (available p')
  ∧ (∀ b, (i, b) ∈ available p' →
          S (length (available p'')) = length (available p')).
Proof.
  intros Hfail p''. subst p''. rewrite complete_request_available by done.
  split; [done|]. intros b. apply available_remove.
Qed.

Lemma failure_shrinks_available_witness :
  let p'' := (complete_request sample_pool 0 (Raise TimeoutError)).2 in
  available p'' = filter (λ x, x.1 ≠ 0) (available sample_pool)
  ∧ (∀ b, (0, b) ∈ available sample_pool →
          S (length (available p'')) = length (available sample_pool)).
Proof.
  intros p''.
  exact (failure_shrinks_available sample_pool 0 (Raise TimeoutError)
           (or_introl eq_refl)).
Defined.

(** X11. When the outbound exchange of an attempt on the backend at
    position [i] ends in a timeout or any other [Exception] at a moment
    when no other backend is healthy, the state that the handler leaves
    has no healthy backend: a request that reaches [select_backend] in
    that state gets the 503 response without any outbound call, and the
    health endpoint read in that state answers "unhealthy" with code
    503. *)
Theorem last_backend_failure_outage (session' : OutboundCall → Reply)
    (p' : ReverseProxy) (request' : Request) (i : nat) (reply : Reply) :
  (∀ j b, (j, b) ∈ available p' → j = i) →
  raised reply = Some TimeoutError ∨ raised reply = Some OtherException →
  let p'' := (complete_request p' i reply).2 in
  let h' := handle_request session' p'' request' in
  available p'' = []
  ∧ returned h' = inl (Response "503 Service Unavailable" 503%Z)
  ∧ calls h' = []
  ∧ body_status (health_handler p'') = "unhealthy"
  ∧ code (health_handler p'') = 503%Z.
Proof.
  intros Honly Hfail p'' h'.
  assert (available p'' = []) as Hnone.
  { subst p''. rewrite complete_request_available by done.
    apply list_eq. intros k. rewrite lookup_nil.
    destruct (filter _ _ !! k) as [[j b]|] eqn:Hk; [|done].
    apply list_elem_of_lookup_2, list_elem_of_filter in Hk as [Hne Hin].
    simpl in Hne. by apply Honly in Hin. }
  subst h'. rewrite handle_request_none by (by apply select_backend_None).
  split_and!; [done..| |]; unfold health_handler; cbn [body_status code];
    apply available_from_nil in Hnone;
    (destruct (existsb healthy (backends p'')) eqn:Hex; [|done]);
    apply existsb_exists in Hex as (b' & Hin & Hb');
    rewrite Forall_forall in Hnone; apply list_elem_of_In, Hnone in Hin;
    congruence.
Qed.

Lemma last_backend_failure_outage_witness :
  let p'' := (complete_request sample_last_pool 1 (Raise TimeoutError)).2 in
  let h' := handle_request (λ _, Respond sample_response) p'' sample_request in
  available p'' = []
  ∧ returned h' = inl (Response "503 Service Unavailable" 503%Z)
  ∧ calls h' = []
  ∧ body_status (health_handler p'') = "unhealthy"
  ∧ code (health_handler p'') = 503%Z.
Proof.
  intros p'' h'.
  apply (last_backend_failure_outage (λ _, Respond sample_response)
           sample_last_pool sample_request 1 (Raise TimeoutError));
    [|by left].
  intros j b Hin. apply available_elem in Hin as [Hlk Hb].
  destruct j as [|[|j]]; [|done|done]. simpl in Hlk. by simplify_eq.
Defined.

(** ** Probe passes *)

Section Passes.
Implicit Types (g : nat → string → ProbeReply) (bs : list Backend)
  (b : Backend) (p : ReverseProxy) (i k : nat).

Lemma health_check_pass_complete g p :
  (∀ k b, backends p !! k = Some b →
          g k (url b +:+ "/health") ≠ ProbeRaise BaseException) →
  health_check_pass g p =
    (mkProxy
       (imap (λ k b, set_healthy (probe_flag (g k (url b +:+ "/health"))) b)
          (backends p))
       (current_backend p),
     (λ b, url b +:+ "/health") <$> backends p,
     None).
Proof.
  intros Hok. unfold health_check_pass.
  by rewrite health_check_from_complete.
Qed.

(** A pass that is cut short at position [k] has rewritten the flags
    before [k] and none from [k] on. *)
Lemma health_check_from_cancelled g i bs k b :
  bs !! k = Some b →
  g (i + k) (url b +:+ "/health") = ProbeRaise BaseException →
  (∀ j b', j < k → bs !! j = Some b' →
           g (i + j) (url b' +:+ "/health") ≠ ProbeRaise BaseException) →
  health_check_from g i bs =
    (imap (λ j b', set_healthy (probe_flag (g (i + j) (url b' +:+ "/health"))) b')
       (take k bs) ++ drop k bs,
     (λ b', url b' +:+ "/health") <$> take (S k) bs,
     Some BaseException).
Proof.
  revert i k. induction bs as [|b0 bs IH]; intros i k Hk Hcancel Hbefore; [done|].
  destruct k as [|k]; simpl in Hk.
  - injection Hk as ->. cbn [health_check_from]. rewrite Nat.add_0_r in Hcancel.
    by rewrite Hcancel.
  - cbn [health_check_from]. rewrite probe_backend_inl.
    2:{ specialize (Hbefore 0 b0). rewrite Nat.add_0_r in Hbefore.
        apply Hbefore; [lia | done]. }
    rewrite (IH (S i) k Hk).
    + cbn [take drop imap app fmap list_fmap]. rewrite Nat.add_0_r.
      rewrite (imap_ext
                 (λ j b', set_healthy
                            (probe_flag (g (S i + j) (url b' +:+ "/health"))) b')
                 ((λ j b', set_healthy
                             (probe_flag (g (i + j) (url b' +:+ "/health"))) b')
                    ∘ S)); [done|].
      intros j b' _. simpl. do 3 f_equal. lia.
    + by replace (S i + k) with (i + S k) by lia.
    + intros j b' Hj Hlk. replace (S i + j) with (i + S j) by lia.
      apply Hbefore; [lia | done].
Qed.


End Passes.

(** X12. One probe decides by itself whether its backend is in
    rotation: when the probe of the backend at position [i] writes its
    flag, which it does without suspending, the backend is in the
    healthy subset of the state it leaves exactly when the reply was a
    response with status 200, whatever its flag was before, so a
    backend excluded after a failed forward becomes selectable again
    and one that answers anything else is excluded; the membership of
    every other backend is as it was. *)
Theorem probe_restores_backend (p' : ReverseProxy) (i : nat) (b b' : Backend)
    (reply : ProbeReply) :
  backends p' !! i = Some b →
  probe_backend reply b = inl b' →
  let p'' := update_backend i (λ _, b') p' in
  ((i, b') ∈ available p'' ↔ reply = ProbeStatus 200%Z)
  ∧ (∀ x, (i, x) ∈ available p'' → x = b' ∧ x = set_healthy true b)
  ∧ (∀ j x, j ≠ i → (j, x) ∈ available p'' ↔ (j, x) ∈ available p').
Proof.
  intros Hi Hprobe p''.
  pose proof (probe_backend_cases reply b) as Hcases.
  rewrite Hprobe in Hcases. destruct Hcases as [-> _].
  assert (backends p'' !! i
          = Some (set_healthy (probe_flag reply) b)) as Hi''.
  { subst p''. unfold update_backend. cbn [backends].
    by rewrite list_lookup_alter_eq, Hi. }
  split_and!.
  - rewrite available_elem, Hi''. cbn [healthy set_healthy].
    rewrite <-probe_flag_true. split; [by intros [_ ?] | by intros ?].
  - intros x [Hx Hh]%available_elem. rewrite Hi'' in Hx. injection Hx as <-.
    cbn [healthy set_healthy] in Hh. by rewrite Hh.
  - intros j x Hne. rewrite !available_elem. subst p''.
    unfold update_backend. cbn [backends].
    by rewrite list_lookup_alter_ne.
Qed.

Lemma probe_restores_backend_witness :
  let b := mkBackend "backend2" "http://localhost:3002" (Some "localhost")
             3002 false 0 in
  let b' := set_healthy true b in
  let p'' := update_backend 1 (λ _, b') sample_pool in
  ((1, b') ∈ available p'' ↔ ProbeStatus 200 = ProbeStatus 200%Z)
  ∧ (∀ x, (1, x) ∈ available p'' → x = b' ∧ x = set_healthy true b)
  ∧ (∀ j x, j ≠ 1 → (j, x) ∈ available p'' ↔ (j, x) ∈ available sample_pool).
Proof.
  intros b b' p''.
  exact (probe_restores_backend sample_pool 1 b b' (ProbeStatus 200)
           eq_refl eq_refl).
Defined.

(** X13. A probe pass that is not cut short overwrites every flag: its
    result depends on the replies and on the ids, URLs, hosts, ports
    and counters of the pool, not on the flags before the pass. *)
Theorem probe_pass_overwrites (session_get : nat → string → ProbeReply)
    (p q : ReverseProxy) :
  set_healthy true <$> backends p = set_healthy true <$> backends q →
  current_backend p = current_backend q →
  (∀ k b, backends p !! k = Some b →
          session_get k (url b +:+ "/health") ≠ ProbeRaise BaseException) →
  health_check_pass session_get p = health_check_pass session_get q.
Proof.
  intros Hsame Hcur Hok.
  assert (∀ k b, backends q !! k = Some b →
            session_get k (url b +:+ "/health") ≠ ProbeRaise BaseException) as Hok'.
  { intros k b Hk.
    assert ((set_healthy true <$> backends p) !! k = Some (set_healthy true b)) as Hp
      by (by rewrite Hsame, list_lookup_fmap, Hk).
    rewrite list_lookup_fmap in Hp.
    destruct (backends p !! k) as [b0|] eqn:Hb0; [|done].
    simpl in Hp. apply (inj Some), (f_equal url) in Hp. simpl in Hp.
    rewrite <-Hp. by apply Hok. }
  rewrite !health_check_pass_complete by done. rewrite Hcur.
  assert (imap (λ k b, set_healthy
                         (probe_flag (session_get k (url b +:+ "/health"))) b)
            (backends p)
          = imap (λ k b, set_healthy
                           (probe_flag (session_get k (url b +:+ "/health"))) b)
              (backends q)) as ->.
  { transitivity
      (imap (λ k b, set_healthy
                      (probe_flag (session_get k (url b +:+ "/health"))) b)
         (set_healthy true <$> backends p)).
    - rewrite imap_fmap. apply imap_ext. intros k b _. simpl. by destruct b.
    - rewrite Hsame, imap_fmap. apply imap_ext. intros k b _. simpl.
      by destruct b. }
  assert ((λ b, url b +:+ "/health") <$> backends p
          = (λ b, url b +:+ "/health") <$> backends q) as ->; [|done].
  transitivity ((λ b, url b +:+ "/health") <$> (set_healthy true <$> backends p)).
  - rewrite <-list_fmap_compose. apply list_fmap_ext. by intros _ [] _.
  - rewrite Hsame, <-list_fmap_compose. apply list_fmap_ext. by intros _ [] _.
Qed.

Lemma probe_pass_overwrites_witness :
  let session_get := λ (k : nat) (_ : string),
    if decide (k = 1) then ProbeStatus 200 else ProbeStatus 500 in
  health_check_pass session_get sample_pool
  = health_check_pass session_get
      (mkProxy (set_healthy false <$> backends sample_pool) 4).
Proof.
  intros session_get.
  apply (probe_pass_overwrites session_get sample_pool
           (mkProxy (set_healthy false <$> backends sample_pool) 4));
    [reflexivity | reflexivity |].
  intros k b _. unfold session_get. by case_decide.
Defined.

(** X14. A probe pass cut short at the backend at position [k] by an
    exception that is not an [Exception] has probed the backends up to
    and including [k]; it has rewritten the flags before [k] from their
    replies and left the backend at [k] and all later ones as they
    were. *)
Theorem probe_pass_cancelled (session_get : nat → string → ProbeReply)
    (p : ReverseProxy) (k : nat) (b : Backend) :
  backends p !! k = Some b →
  session_get k (url b +:+ "/health") = ProbeRaise BaseException →
  (∀ j b', j < k → backends p !! j = Some b' →
           session_get j (url b' +:+ "/health") ≠ ProbeRaise BaseException) →
  health_check_pass session_get p =
    (mkProxy
       (imap (λ j b', set_healthy
                        (probe_flag (session_get j (url b' +:+ "/health"))) b')
          (take k (backends p)) ++ drop k (backends p))
       (current_backend p),
     (λ b', url b' +:+ "/health") <$> take (S k) (backends p),
     Some BaseException).
Proof.
  intros Hk Hcancel Hbefore. unfold health_check_pass.
  by rewrite (health_check_from_cancelled session_get 0 _ k b).
Qed.

Lemma probe_pass_cancelled_witness :
  let session_get := λ (k : nat) (_ : string),
    if decide (k = 1) then ProbeRaise BaseException else ProbeStatus 500 in
  health_check_pass session_get sample_pool =
    (mkProxy
       (imap (λ j b', set_healthy
                        (probe_flag (session_get j (url b' +:+ "/health"))) b')
          (take 1 (backends sample_pool)) ++ drop 1 (backends sample_pool))
       (current_backend sample_pool),
     (λ b', url b' +:+ "/health") <$> take 2 (backends sample_pool),
     Some BaseException).
Proof.
  intros session_get.
  apply (probe_pass_cancelled session_get sample_pool 1
           (mkBackend "backend2" "http://localhost:3002" (Some "localhost")
              3002 false 0)); [reflexivity | reflexivity |].
  intros j b' Hj _. unfold session_get. rewrite decide_False by lia. done.
Defined.



(** ** Invariants of histories *)

Section Invariants.
Implicit Types (p : ReverseProxy) (ev : Event) (evs : list Event).

Lemma fmap_insert_mark (bs : list Backend) i b :
  bs !! i = Some b →
  set_healthy true <$> <[i := set_healthy false b]> bs = set_healthy true <$> bs.
Proof.
  intros Hi. rewrite list_fmap_insert. apply list_insert_id.
  by rewrite list_lookup_fmap, Hi.
Qed.

Lemma step_records p ev :
  set_healthy true <$> backends (step p ev) = set_healthy true <$> backends p.
Proof.
  destruct ev as [session request|g]; simpl.
  - destruct (select_backend p).1 as [[i b]|] eqn:Hsel.
    + rewrite (handle_request_pool _ _ _ _ _ Hsel). cbn [backends].
      apply select_backend_elem in Hsel as [Hlk _].
      destruct (raised _) as [[]|]; by rewrite ?fmap_insert_mark.
    + by rewrite (handle_request_none _ _ _ Hsel).
  - unfold health_check_pass.
    pose proof (health_check_from_length g 0 (backends p)) as Hlen.
    pose proof (health_check_from_lookup g 0 (backends p)) as Hlk.
    destruct (health_check_from g 0 (backends p)) as [[bs' probed] e].
    cbn [fst snd backends] in *. apply list_eq. intros k.
    rewrite !list_lookup_fmap.
    destruct (backends p !! k) as [b|] eqn:Hk.
    + destruct (Hlk k b Hk) as (b' & -> & [-> | ->]); [done|]. by destruct b.
    + rewrite (proj2 (lookup_ge_None bs' k)); [done|].
      apply lookup_ge_None in Hk. lia.
Qed.

Lemma step_cursor p ev :
  current_backend (step p ev) = current_backend p
  ∨ current_backend (step p ev) = current_backend p + 1.
Proof.
  destruct ev as [session request|g]; simpl.
  - destruct (select_backend p).1 as [[i b]|] eqn:Hsel.
    + right. by rewrite (handle_request_pool _ _ _ _ _ Hsel).
    + left. by rewrite (handle_request_none _ _ _ Hsel).
  - left. unfold health_check_pass. by destruct (health_check_from _ _ _) as [[??]?].
Qed.
End Invariants.

(** X16. Through any history of forwarded requests and probe passes,
    whatever the network does, the pool keeps its backends: same
    number, same order, and each with the id, URL, host and port it
    had; and once the handlers have returned, every connection counter
    has the value it had at the start. Only flags and the cursor
    change. *)
Theorem history_changes_only_flags (p : ReverseProxy) (evs : list Event) :
  (λ b, (id b, url b, host b, port b, connections b)) <$> backends (run p evs)
  = (λ b, (id b, url b, host b, port b, connections b)) <$> backends p.
Proof.
  assert (set_healthy true <$> backends (run p evs)
          = set_healthy true <$> backends p) as Hrec.
  { revert p. induction evs as [|ev evs IH]; intros p; [done|].
    cbn [run foldl]. etrans; [apply IH | apply step_records]. }
  apply (f_equal (fmap (λ b, (id b, url b, host b, port b, connections b))))
    in Hrec.
  rewrite <-!list_fmap_compose in Hrec.
  etrans; [|etrans; [exact Hrec|]]; apply list_fmap_ext; by intros _ [] _.
Qed.

(** X17. The cursor never goes back and is never reset: through any
    history it grows by at most one per event, and probe passes leave
    it alone. *)
Theorem cursor_monotone (p : ReverseProxy) (evs : list Event) :
  current_backend p ≤ current_backend (run p evs)
  ∧ current_backend (run p evs) ≤ current_backend p + length evs
  ∧ ∀ session_get, current_backend (step p (Probe session_get)) = current_backend p.
Proof.
  split_and!.
  - revert p. induction evs as [|ev evs IH]; intros p; [done|].
    cbn [run foldl]. specialize (IH (step p ev)). unfold run in IH.
    destruct (step_cursor p ev); lia.
  - revert p. induction evs as [|ev evs IH]; intros p; [simpl; lia|].
    cbn [run foldl length]. specialize (IH (step p ev)). unfold run in IH.
    destruct (step_cursor p ev); lia.
  - intros g. simpl. unfold health_check_pass.
    by destruct (health_check_from _ _ _) as [[??]?].
Qed.

(** ** Headers, again *)

Lemma getone_lower (h : list (string * string)) (k k' : string) :
  lower k = lower k' → getone h k = getone h k'.
Proof.
  intros Hk. induction h as [|[k0 v0] h IH]; [done|]. simpl.
  rewrite Hk, IH. done.
Qed.

(** X18. The outbound headers, name by name. [X-Forwarded-For] and
    [X-Real-IP] hold the caller's address, or 127.0.0.1 when it is
    unknown or empty, and [X-Forwarded-Proto] holds the scheme, whatever
    the request had under these names. The names [connection],
    [keep-alive], [transfer-encoding] and [upgrade], in lower case, are
    absent. Any other name is present exactly when the request has a
    header spelled that way, with the first value that the request
    holds for it up to letter case. *)
Theorem header_rewriting (request : Request) (k : string) :
  process_headers request !! k =
    (if decide (k = "X-Forwarded-For" ∨ k = "X-Real-IP") then
       Some (match remote request with
             | None => "127.0.0.1"
             | Some s => if decide (s = "") then "127.0.0.1" else s
             end)
     else if decide (k = "X-Forwarded-Proto") then Some (scheme request)
     else if decide (k ∈ hop_by_hop) then None
     else if decide (k ∈ (headers request).*1) then getone (headers request) k
     else None).
Proof.
  rewrite process_headers_lookup, dict_of_headers_lookup. unfold remote_or.
  repeat case_decide; try done; exfalso; intuition congruence.
Qed.

(** X19. A header that the request repeats is forwarded with its first
    value only: every spelling of the name of the first header of the
    request that the request uses gets the value of that first
    header. *)
Theorem repeated_header_first_value (k0 v0 : string)
    (rest : list (string * string)) (k : string) :
  k ∈ k0 :: rest.*1 →
  lower k = lower k0 →
  dict_of_headers ((k0, v0) :: rest) !! k = Some v0.
Proof.
  intros Hin Hlow. rewrite dict_of_headers_lookup, fmap_cons. cbn [fst].
  rewrite decide_True by done. rewrite (getone_lower _ k k0) by done.
  simpl. by rewrite decide_True.
Qed.

Lemma repeated_header_first_value_witness :
  "cookie" ∈ "Cookie" :: [("Accept", "*/*"); ("cookie", "b=2")].*1
  ∧ dict_of_headers [("Cookie", "a=1"); ("Accept", "*/*"); ("cookie", "b=2")]
      !! "cookie" = Some "a=1".
Proof.
  assert ("cookie" ∈ "Cookie" :: [("Accept", "*/*"); ("cookie", "b=2")].*1) as Hin
    by (simpl; repeat first [apply list_elem_of_here | apply list_elem_of_further]).
  split; [exact Hin|].
  exact (repeated_header_first_value "Cookie" "a=1"
           [("Accept", "*/*"); ("cookie", "b=2")] "cookie" Hin eq_refl).
Defined.

(** ** Routing *)

(** X20. The router of [create_app] sends a request to the health
    handler exactly when its path is [/_health] and its method is [GET]
    or [HEAD]. Every other request whose path is a slash followed by
    characters other than a newline goes to [handle_request], for any
    method; this includes requests to [/_health] with another method,
    which are forwarded to a backend. *)
Theorem routing (method path : string) :
  resolve app_router method path =
    (if decide (path = "/_health" ∧ (method = "GET" ∨ method = "HEAD"))
     then Some HealthHandler
     else if matches SlashAnything path then Some ProxyHandler
     else None)
  ∧ matches SlashAnything "/_health" = true.
Proof.
  split; [|reflexivity].
  unfold app_router, add_get. cbn [resolve res_pattern res_routes resolve_route matches].
  destruct (decide (path = "/_health")) as [->|Hpath].
  - rewrite bool_decide_eq_true_2 by done.
    destruct (decide (method = "HEAD")) as [->|Hhead].
    { by rewrite decide_True by (split; [done | by right]). }
    rewrite (bool_decide_eq_false_2 ("HEAD" = method)) by done.
    rewrite (bool_decide_eq_false_2 ("HEAD" = "*")) by done.
    destruct (decide (method = "GET")) as [->|Hget].
    { by rewrite decide_True by (split; [done | by left]). }
    rewrite (bool_decide_eq_false_2 ("GET" = method)) by done.
    rewrite (bool_decide_eq_false_2 ("GET" = "*")) by done.
    rewrite decide_False by (by intros [_ [?|?]]). cbn [orb].
    by rewrite (bool_decide_eq_true_2 ("*" = "*")), orb_true_r.
  - rewrite bool_decide_eq_false_2 by done.
    rewrite decide_False by (by intros [? _]).
    rewrite (bool_decide_eq_true_2 ("*" = "*")), orb_true_r by done.
    by destruct path as [|c rest]; [|destruct (_ && _)].
Qed.

